(** * A relay between WebSocket devices and a Telegram operator (server.js)

    Shallow embedding of [server.js]: the in-memory registry [clients], the
    handlers the server installs on every WebSocket connection, the two
    interval timers and the Telegram message handler, followed by the
    properties of the connection registry, the liveness sweep and the message
    routing that the specification states.

    The libraries the server calls ([ws], [JSON], [Date], [uuid], the Telegram
    client) are not part of the program.  What the handlers rely on is written
    out where it is used: the result of [JSON.parse] is a parameter, the clock
    and the fresh connection id come with the event, and a WebSocket is a
    record holding its [readyState], its [isAlive] flag and the frames handed
    to [send]. *)

From Stdlib Require Import ZArith String Ascii List SpecFloat.
From stdpp Require Import gmap strings list sorting.

Local Open Scope Z_scope.
Set Warnings "-register-all".

(** ** JavaScript values

    A device message is whatever [JSON.parse] returns, and the handler stores
    [data.ip] and [data.location_device] in the registry without looking at
    their type, so the metadata fields hold arbitrary JSON values. *)
Module JS.

Inductive value :=
| VUndefined
| VNull
| VBool (b : bool)
| VNumber (n : spec_float)
| VString (s : string)
| VArray (items : list value)
| VObject (fields : list (string * value)).

(** ToBoolean, as used by [||] and [if]. *)
Definition truthy (v : value) : bool :=
  match v with
  | VUndefined | VNull => false
  | VBool b => b
  | VNumber (S754_zero _) | VNumber S754_nan => false
  | VNumber _ => true
  | VString s => negb (String.eqb s "")
  | VArray _ | VObject _ => true
  end.

(** [a || b] *)
Definition or_else (a b : value) : value := if truthy a then a else b.

(** [v === "lit"] against a string literal. *)
Definition is_string (lit : string) (v : value) : bool :=
  match v with
  | VString s => String.eqb s lit
  | _ => false
  end.

(** Own property of a parsed object: [JSON.parse] keeps the last of several
    members with the same key. *)
Fixpoint own (key : string) (fields : list (string * value)) : option value :=
  match fields with
  | [] => None
  | (k, v) :: rest =>
      match own key rest with
      | Some v' => Some v'
      | None => if String.eqb k key then Some v else None
      end
  end.

(** [data.key] for the keys the server reads ([type], [ip],
    [location_device]): none of them is defined on a prototype, so the read
    gives the own property or [undefined]; on [null] and [undefined] the read
    throws a TypeError ([None]). *)
Definition get (data : value) (key : string) : option value :=
  match data with
  | VUndefined | VNull => None
  | VObject fields => Some (default VUndefined (own key fields))
  | _ => Some VUndefined
  end.

(** Whether ToString succeeds, as a template literal [`${v}`] needs.  An
    object built by [JSON.parse] holds no function, so one with an own
    [toString] member has no usable conversion method ([valueOf] is either
    inherited and returns the object, or is an own member and not callable):
    ToPrimitive throws a TypeError.  An array joins the conversions of its
    items, [null] and [undefined] counting as empty. *)
Fixpoint printable (v : value) : bool :=
  match v with
  | VArray items => forallb printable items
  | VObject fields => negb (bool_decide (is_Some (own "toString" fields)))
  | _ => true
  end.

End JS.
Import JS.

(** ** Strings: [split], [join], [toLowerCase]

    Text is a sequence of UTF-8 bytes.  The separator is the ASCII colon and
    the tag is ASCII, and no byte of a multi-byte character is an ASCII byte;
    no character outside ASCII has a lower-case form made of the letters of
    [esp32], so lowering the ASCII letters decides the comparison the handler
    makes. *)
Module Str.

(** [s.split(sep)] for a one-character separator. *)
Fixpoint split (sep : ascii) (s : string) : list string :=
  match s with
  | EmptyString => [EmptyString]
  | String c rest =>
      if Ascii.eqb c sep then EmptyString :: split sep rest
      else match split sep rest with
           | part :: parts => String c part :: parts
           | [] => [String c EmptyString]
           end
  end.

(** [parts.join(sep)] *)
Fixpoint join (sep : string) (parts : list string) : string :=
  match parts with
  | [] => EmptyString
  | [part] => part
  | part :: rest => part +:+ sep +:+ join sep rest
  end.

Definition lower (c : ascii) : ascii :=
  let n := nat_of_ascii c in
  if ((65 <=? n) && (n <=? 90))%nat then ascii_of_nat (n + 32) else c.

(** [s.toLowerCase()] *)
Fixpoint toLowerCase (s : string) : string :=
  match s with
  | EmptyString => EmptyString
  | String c rest => String (lower c) (toLowerCase rest)
  end.

(** [c] does not occur in [s]. *)
Fixpoint free_of (c : ascii) (s : string) : bool :=
  match s with
  | EmptyString => true
  | String d rest => negb (Ascii.eqb d c) && free_of c rest
  end.

End Str.

(** ** The WebSocket of one connection (library [ws], server side)

    A socket handed to the [connection] callback is [OPEN].  [sent] lists the
    frames given to [send], oldest first; [terminations] counts the calls of
    [terminate]. *)
Module WS.

Inductive ReadyState := CONNECTING | OPEN | CLOSING | CLOSED.

#[global] Instance ReadyState_eq_dec : EqDecision ReadyState.
Proof. solve_decision. Defined.

(** What the server sends to a device, before [JSON.stringify]. *)
Inductive Frame :=
| Connected (clientId : string)                  (* { type: "connected", clientId } *)
| CommandPing                                    (* { type: "command", action: "ping" } *)
| Direct (clientID : string) (message : string)  (* { clientID, message: command } *)
| Relay (from sender message : string).          (* { from: chatId, sender: senderId, message: text } *)

Record WebSocket := mkWebSocket {
  readyState : ReadyState;
  isAlive : bool;
  sent : list Frame;
  terminations : nat
}.

Definition accepted : WebSocket :=
  {| readyState := OPEN; isAlive := false; sent := []; terminations := 0 |}.

Definition is_open (ws : WebSocket) : bool := bool_decide (readyState ws = OPEN).

(** The socket after one more frame has left. *)
Definition push (data : Frame) (ws : WebSocket) : WebSocket :=
  {| readyState := readyState ws; isAlive := isAlive ws;
     sent := sent ws ++ [data]; terminations := terminations ws |}.

(** [ws.send(data)]: the frame leaves on an open socket only. *)
Definition send (data : Frame) (ws : WebSocket) : WebSocket :=
  if is_open ws then push data ws else ws.

(** [ws.terminate()]: nothing on a closed socket; otherwise the socket goes
    to [CLOSING] and the underlying connection is destroyed, after which the
    library emits [close] on a later turn of the event loop. *)
Definition terminate (ws : WebSocket) : WebSocket :=
  {| readyState := if bool_decide (readyState ws = CLOSED) then CLOSED else CLOSING;
     isAlive := isAlive ws; sent := sent ws;
     terminations := S (terminations ws) |}.

(** [ws.isAlive = v] *)
Definition set_isAlive (v : bool) (ws : WebSocket) : WebSocket :=
  {| readyState := readyState ws; isAlive := v; sent := sent ws;
     terminations := terminations ws |}.

(** The socket when the library reports an error on it: it has begun to
    close. *)
Definition closing (ws : WebSocket) : WebSocket :=
  {| readyState := if bool_decide (readyState ws = CLOSED) then CLOSED else CLOSING;
     isAlive := isAlive ws; sent := sent ws; terminations := terminations ws |}.

(** The library sets [readyState] to [CLOSED] just before it emits [close]. *)
Definition closed (ws : WebSocket) : WebSocket :=
  {| readyState := CLOSED; isAlive := isAlive ws; sent := sent ws;
     terminations := terminations ws |}.

End WS.
Import WS.

(** ** Server state *)

(** The [metadata] object of a registry entry. *)
Record Metadata := mkMetadata {
  ip : value;
  location_device : value;
  lastSeen : Z            (* a Date, in milliseconds *)
}.

(** A value of the map [clients]: [{ ws, metadata }].  [ws] refers to a
    socket of the store [sockets] below. *)
Record ClientData := mkClientData {
  ws : string;
  metadata : Metadata
}.

(** What the [connection] callback captures besides [clientId]: its socket
    and [clientIP].  A connection is addressed by its [clientId], and so is
    its socket. *)
Record Closure := mkClosure {
  socket : WebSocket;
  clientIP : value
}.

(** Lines written with [console.log] and [console.error].  A line keeps the
    values its template interpolates. *)
Inductive LogLine :=
| LogMessageFrom (clientId text : string)
| LogRegistered (locationDevice ip : value) (total : nat)
| LogHeartbeat (clientId : string) (ip : value)
| LogUnknownType (clientId : string) (type : value)
| LogInvalidJSON (clientId : string)
| LogDisconnected (clientId : string) (ip : value) (total : Z)
| LogError (clientId message : string)
| LogRemovingInactive (clientId : string) (ip : value)
| LogTelegram (chatId senderId text : string)
| LogSentToESP32 (clientID command : string).

(** A message sent to the operator with [telegramClient.sendMessage]. *)
Inductive Notification :=
| ClientRegistered (locationDevice ip : value) (total : nat).

Record State := mkState {
  clients : gmap string ClientData;       (* const clients = new Map() *)
  inserted : list string;                 (* its keys, in the order of insertion *)
  sockets : gmap string Closure;          (* the connections accepted so far *)
  telegramSelfUser : bool;                (* whether telegramSelfUser is set *)
  allowedChatIds : option (gset string);  (* set once the Telegram handler is added *)
  operator : list Notification;           (* messages sent to the operator *)
  console : list LogLine
}.

Definition initial : State :=
  {| clients := ∅; inserted := []; sockets := ∅; telegramSelfUser := false;
     allowedChatIds := None; operator := []; console := [] |}.

(** ** Statements with effects and exceptions

    A statement runs on the state and either completes with a value or throws;
    what it changed before throwing stays changed. *)
Inductive Completion (A : Type) :=
| Normal (a : A)
| Throw.
Arguments Normal {A} a.
Arguments Throw {A}.

Definition M (A : Type) : Type := State → Completion A * State.

Definition ret {A} (a : A) : M A := λ st, (Normal a, st).
Definition throw {A} : M A := λ st, (Throw, st).
Definition bind {A B} (m : M A) (k : A → M B) : M B :=
  λ st, match m st with
        | (Normal a, st') => k a st'
        | (Throw, st') => (Throw, st')
        end.
Definition gets {A} (f : State → A) : M A := λ st, (Normal (f st), st).
Definition modify (f : State → State) : M unit := λ st, (Normal tt, f st).
(** [try { body } catch (err) { handler }] *)
Definition try_catch (body handler : M unit) : M unit :=
  λ st, match body st with
        | (Normal a, st') => (Normal a, st')
        | (Throw, st') => handler st'
        end.
(** [for (const x of xs) body] *)
Fixpoint for_of {A} (xs : list A) (body : A → M unit) : M unit :=
  match xs with
  | [] => ret tt
  | x :: rest => bind (body x) (λ _, for_of rest body)
  end.
(** The empty statement. *)
Definition skip : M unit := ret tt.
(** The value of an expression that throws when it is [None]. *)
Definition eval {A} (o : option A) : M A :=
  match o with
  | Some a => ret a
  | None => throw
  end.

#[global] Instance M_ret : MRet M := @ret.
#[global] Instance M_bind : MBind M := λ A B k m, bind m k.

Definition set_clients (f : gmap string ClientData → gmap string ClientData) (st : State) : State :=
  {| clients := f (clients st); inserted := inserted st; sockets := sockets st;
     telegramSelfUser := telegramSelfUser st; allowedChatIds := allowedChatIds st;
     operator := operator st; console := console st |}.

Definition set_sockets (f : gmap string Closure → gmap string Closure) (st : State) : State :=
  {| clients := clients st; inserted := inserted st; sockets := f (sockets st);
     telegramSelfUser := telegramSelfUser st; allowedChatIds := allowedChatIds st;
     operator := operator st; console := console st |}.

(** [clients.set(key, value)]: a key that is new goes to the end of the
    order. *)
Definition Map_set (key : string) (value : ClientData) (st : State) : State :=
  {| clients := <[key := value]> (clients st);
     inserted := if bool_decide (is_Some (clients st !! key)) then inserted st
                 else inserted st ++ [key];
     sockets := sockets st;
     telegramSelfUser := telegramSelfUser st; allowedChatIds := allowedChatIds st;
     operator := operator st; console := console st |}.

(** [clients.delete(key)] *)
Definition Map_delete (key : string) (st : State) : State :=
  {| clients := delete key (clients st);
     inserted := filter (λ k, k ≠ key) (inserted st);
     sockets := sockets st;
     telegramSelfUser := telegramSelfUser st; allowedChatIds := allowedChatIds st;
     operator := operator st; console := console st |}.

Definition log (line : LogLine) : M unit :=
  modify (λ st,
    {| clients := clients st; inserted := inserted st; sockets := sockets st;
       telegramSelfUser := telegramSelfUser st; allowedChatIds := allowedChatIds st;
       operator := operator st; console := console st ++ [line] |}).

Definition sendMessage (n : Notification) : M unit :=
  modify (λ st,
    {| clients := clients st; inserted := inserted st; sockets := sockets st;
       telegramSelfUser := telegramSelfUser st; allowedChatIds := allowedChatIds st;
       operator := operator st ++ [n]; console := console st |}).

(** A template literal interpolating [vs]: throws when one of them has no
    string conversion. *)
Definition template (vs : list value) : M unit :=
  if forallb printable vs then ret tt else throw.

(** A method call on the socket of a connection. *)
Definition call (f : WebSocket → WebSocket) (c : Closure) : Closure :=
  {| socket := f (socket c); clientIP := clientIP c |}.

(** A method call on the socket [ref] refers to. *)
Definition on_socket (f : WebSocket → WebSocket) (ref : string) : M unit :=
  modify (set_sockets (alter (call f) ref)).

(** An assignment to a field of the metadata object of [clientId]'s entry. *)
Definition on_metadata (f : Metadata → Metadata) (clientId : string) : M unit :=
  modify (set_clients (alter (λ cd, {| ws := ws cd; metadata := f (metadata cd) |}) clientId)).

(** ** The handlers of one WebSocket connection *)
Section Server.

(** [JSON.parse]: the parsed value, or [None] for a SyntaxError. *)
Variable JSON_parse : string → option value.

(** [wss.on("connection", (ws, req) => ...)], with [clientId] the result of
    [uuidv4()], [remoteAddress] that of [req.socket.remoteAddress] and [now]
    that of [new Date()]. *)
Definition on_connection (clientId : string) (remoteAddress : option string) (now : Z) : M unit :=
  let clientIP := from_option VString VUndefined remoteAddress in
  modify (set_sockets <[clientId := {| socket := set_isAlive true accepted; clientIP := clientIP |}]>);;
  modify (Map_set clientId
    {| ws := clientId;
       metadata := {| ip := clientIP;
                      location_device := VString "🔄 Waiting...";
                      lastSeen := now |} |});;
  on_socket (send (Connected clientId)) clientId.

(** The body of the [try] block of [ws.on("message", ...)]. *)
Definition message_body (clientId : string) (clientIP : value) (text : string) (now : Z) : M unit :=
  data ← eval (JSON_parse text);
  clientData ← gets (λ st, clients st !! clientId);
  match clientData with
  | None => skip
  | Some cd =>
      type ← eval (get data "type");
      if is_string "connect" type then
        data_location_device ← eval (get data "location_device");
        let locationDevice := or_else data_location_device (VString "Unknown") in
        data_ip ← eval (get data "ip");
        let new_ip := or_else data_ip clientIP in
        on_metadata (λ m, {| ip := new_ip; location_device := location_device m;
                             lastSeen := lastSeen m |}) clientId;;
        on_metadata (λ m, {| ip := ip m; location_device := locationDevice;
                             lastSeen := lastSeen m |}) clientId;;
        on_metadata (λ m, {| ip := ip m; location_device := location_device m;
                             lastSeen := now |}) clientId;;
        modify (Map_set clientId
          {| ws := clientId;
             metadata := {| ip := new_ip; location_device := locationDevice;
                            lastSeen := now |} |});;
        total ← gets (λ st, size (clients st));
        template [locationDevice; new_ip];;
        log (LogRegistered locationDevice new_ip total);;
        selfUser ← gets telegramSelfUser;
        if (selfUser : bool) then sendMessage (ClientRegistered locationDevice new_ip total)
        else skip
      else if is_string "heartbeat" type then
        on_metadata (λ m, {| ip := ip m; location_device := location_device m;
                             lastSeen := now |}) clientId;;
        template [ip (metadata cd)];;
        log (LogHeartbeat clientId (ip (metadata cd)))
      else
        log (LogUnknownType clientId type)
  end.

(** [ws.on("message", (message) => ...)] of the connection [clientId], whose
    callback captured [clientIP]; [text] is [message.toString()]. *)
Definition on_message (clientId : string) (clientIP : value) (text : string) (now : Z) : M unit :=
  log (LogMessageFrom clientId text);;
  try_catch (message_body clientId clientIP text now)
            (log (LogInvalidJSON clientId)).

(** Whether the message is one of the two the handler acts on. *)
Definition recognised (text : string) : bool :=
  match JSON_parse text with
  | Some data =>
      match get data "type" with
      | Some type => is_string "connect" type || is_string "heartbeat" type
      | None => false
      end
  | None => false
  end.

(** [ws.on("close", () => ...)] *)
Definition on_close (clientId : string) : M unit :=
  clientData ← gets (λ st, clients st !! clientId);
  let shown := or_else (from_option (λ cd, ip (metadata cd)) VUndefined clientData)
                       (VString "unknown") in
  total ← gets (λ st, size (clients st));
  template [shown];;
  log (LogDisconnected clientId shown (Z.of_nat total - 1));;
  modify (Map_delete clientId).

(** The [close] event of a socket: the library marks the socket closed and
    runs the handler. *)
Definition emit_close (clientId : string) : M unit :=
  on_socket closed clientId;;
  on_close clientId.

(** [ws.on("error", (err) => ...)] *)
Definition on_error (clientId : string) (message : string) : M unit :=
  log (LogError clientId message).

(** The [error] event of a socket: the library has begun to close the socket
    when it emits the event and runs the handler; it emits [close] on a later
    turn of the event loop. *)
Definition emit_error (clientId : string) (message : string) : M unit :=
  on_socket closing clientId;;
  on_error clientId message.

(** [function heartbeat() { this.isAlive = true; }], the [pong] handler. *)
Definition heartbeat (clientId : string) : M unit :=
  on_socket (set_isAlive true) clientId.

(** ** Broadcast and the two timers *)

(** The place of a key in the order of insertion. *)
Definition rank (order : list string) (key : string) : nat :=
  from_option fst (length order) (list_find (λ k, k = key) order).

Definition before (order : list string) (e1 e2 : string * ClientData) : Prop :=
  (rank order e1.1 ≤ rank order e2.1)%nat.

#[global] Instance before_dec order e1 e2 : Decision (before order e1 e2).
Proof. unfold before. apply _. Defined.

#[global] Instance before_total order : Total (before order).
Proof. intros e1 e2. unfold before. lia. Qed.

(** The entries of [clients], as [clients.entries()] and [clients.values()]
    yield them: in the order of insertion, i.e. sorted by the place of their
    keys in [inserted]. *)
Definition entries (st : State) : list (string * ClientData) :=
  merge_sort (before (inserted st)) (map_to_list (clients st)).

(** [function broadcast(messageObj)] *)
Definition broadcast (messageObj : Frame) : M unit :=
  es ← gets entries;
  for_of es (λ e,
    target ← gets (λ st, sockets st !! ws e.2);
    if from_option (is_open ∘ socket) false target
    then on_socket (send messageObj) (ws e.2)
    else skip).

(** The probe timer (every 30 s). *)
Definition probe_tick : M unit := broadcast CommandPing.

(** [now - new Date(metadata.lastSeen).getTime() > 30000] *)
Definition stale (now : Z) (cd : ClientData) : bool :=
  bool_decide (now - lastSeen (metadata cd) > 30000).

(** The sweep timer (every 10 s), with [now] the value of [Date.now()]. *)
Definition sweep_tick (now : Z) : M unit :=
  es ← gets entries;
  for_of es (λ e,
    if stale now e.2 then
      template [ip (metadata e.2)];;
      log (LogRemovingInactive e.1 (ip (metadata e.2)));;
      on_socket terminate (ws e.2)
    else skip).

(** ** The Telegram bridge *)

(** [event.message] of a [NewMessage] event: its text, and [chatId] and
    [senderId] after [?.toString()]. *)
Record TgMessage := mkTgMessage {
  message : option string;
  chatId : option string;
  senderId : option string
}.

(** [msg.senderId?.toString() || "unknown"] *)
Definition sender_of (msg : TgMessage) : string :=
  match senderId msg with
  | Some s => if String.eqb s "" then "unknown" else s
  | None => "unknown"
  end.

(** The test of the addressing rule on the parts of the text. *)
Definition addressed (parts : list string) : bool :=
  (3 <=? length parts)%nat && String.eqb (Str.toLowerCase (nth 0 parts "")) "esp32".

(** The loop that delivers a point-to-point command. *)
Definition deliver (clientID command : string) : M unit :=
  es ← gets entries;
  for_of es (λ e,
    target ← gets (λ st, sockets st !! ws e.2);
    if String.eqb e.1 clientID && from_option (λ c, is_open (socket c)) false target
    then on_socket (send (Direct clientID command)) (ws e.2);;
         log (LogSentToESP32 clientID command)
    else skip).

(** The handler given to [telegramClient.addEventHandler], with
    [allowed] the set [allowedChatIds] it captured. *)
Definition telegram_handler (allowed : gset string) (event : option TgMessage) : M unit :=
  match event with
  | None => skip
  | Some msg =>
      match message msg with
      | None => skip
      | Some text =>
          if String.eqb text "" then skip
          else
            match chatId msg with
            | None => skip        (* allowedChatIds.has(undefined) *)
            | Some chat =>
                if negb (bool_decide (chat ∈ allowed)) then skip
                else
                  log (LogTelegram chat (sender_of msg) text);;
                  let parts := Str.split ":" text in
                  if addressed parts then
                    deliver (nth 1 parts "") (Str.join ":" (drop 2 parts))
                  else
                    broadcast (Relay chat (sender_of msg) text)
            end
      end
  end.

(** Start-up, once logged in: [telegramSelfUser] is set. *)
Definition logged_in : M unit :=
  modify (λ st,
    {| clients := clients st; inserted := inserted st; sockets := sockets st; telegramSelfUser := true;
       allowedChatIds := allowedChatIds st; operator := operator st;
       console := console st |}).

(** Start-up, last step: the handler is added, with the ids of
    [targetEntities] as its [allowedChatIds]. *)
Definition add_handler (targetEntities : list string) : M unit :=
  modify (λ st,
    {| clients := clients st; inserted := inserted st; sockets := sockets st;
       telegramSelfUser := telegramSelfUser st;
       allowedChatIds := Some (list_to_set targetEntities);
       operator := operator st; console := console st |}).

(** ** The event loop *)

Inductive Event :=
| Connection (clientId : string) (remoteAddress : option string) (now : Z)
| DeviceMessage (clientId text : string) (now : Z)
| Close (clientId : string)
| SocketError (clientId message : string)
| Pong (clientId : string)
| ProbeTimer
| SweepTimer (now : Z)
| LoggedIn
| HandlerAdded (targetEntities : list string)
| NewMessage (event : option TgMessage).

(** An event of a connection runs the handler of that connection; there is
    none before the connection is accepted. *)
Definition of_connection (clientId : string) (handler : Closure → M unit) : M unit :=
  closure ← gets (λ st, sockets st !! clientId);
  match closure with
  | Some c => handler c
  | None => skip
  end.

(** One turn of the event loop.  [uuidv4()] gives an id not given before: a
    [Connection] event with a used id is none of the system. *)
Definition dispatch (e : Event) : M unit :=
  match e with
  | Connection clientId remoteAddress now =>
      closure ← gets (λ st, sockets st !! clientId);
      match closure with
      | Some _ => skip
      | None => on_connection clientId remoteAddress now
      end
  | DeviceMessage clientId text now =>
      of_connection clientId (λ c, on_message clientId (clientIP c) text now)
  | Close clientId => of_connection clientId (λ _, emit_close clientId)
  | SocketError clientId message => of_connection clientId (λ _, emit_error clientId message)
  | Pong clientId => of_connection clientId (λ _, heartbeat clientId)
  | ProbeTimer => probe_tick
  | SweepTimer now => sweep_tick now
  | LoggedIn => logged_in
  | HandlerAdded targetEntities => add_handler targetEntities
  | NewMessage event =>
      allowed ← gets allowedChatIds;
      match allowed with
      | Some a => telegram_handler a event
      | None => skip
      end
  end.

(** The [close] event of the connection [clientId]. *)
Definition closes (clientId : string) (e : Event) : bool :=
  match e with
  | Close id => String.eqb id clientId
  | _ => false
  end.

(** A run of the server; an exception no handler catches ends it. *)
Definition run (events : list Event) : M unit := for_of events dispatch.

(** The state a statement leaves. *)
Definition exec (m : M unit) (st : State) : State := (m st).2.

(** The statement completes, i.e. throws nothing. *)
Definition completes (m : M unit) (st : State) : Prop := (m st).1 = Normal tt.

(** An event that is no connect and no heartbeat message of the connection
    [clientId]: every event of another connection, a timer tick, an operator
    message and, of the connection itself, a pong, a message of another kind,
    an error, the close. *)
Definition quiet (clientId : string) (e : Event) : bool :=
  match e with
  | DeviceMessage id text _ => negb (String.eqb id clientId && recognised text)
  | _ => true
  end.

End Server.

(** ** Well-formed states

    Every registry entry refers to the socket of its own connection, which is
    in the store.  Every state the server reaches is well formed
    ([wf_reachable] below). *)
Definition wf (st : State) : Prop :=
  map_Forall (λ k cd, ws cd = k ∧ is_Some (sockets st !! k)) (clients st).

(** Every address in the registry has a string conversion. *)
Definition printable_registry (st : State) : Prop :=
  map_Forall (λ _ cd, printable (ip (metadata cd)) = true) (clients st).

(** The socket of a connection. *)
Definition socket_of (st : State) (clientId : string) : option WebSocket :=
  socket <$> sockets st !! clientId.

(** Everything but the sockets and the console is as before. *)
Definition same_registry (st st' : State) : Prop :=
  clients st' = clients st
  ∧ telegramSelfUser st' = telegramSelfUser st
  ∧ allowedChatIds st' = allowedChatIds st
  ∧ operator st' = operator st.

(** The registry is well formed and, when [known] names a connection, that
    connection has been accepted. *)
Definition registry_ok (known : option string) (st : State) : Prop :=
  wf st ∧ ∀ id, known = Some id → is_Some (sockets st !! id).

(** A statement keeps [P], whether it completes or throws. *)
Definition preserves {A} (P : State → Prop) (m : M A) : Prop :=
  ∀ st, P st → P (m st).2.

(** ** The status route *)

(** A row of the answer of [GET /esp32-clients].  [row_lastSeen] is the
    instant that [toISOString] renders. *)
Record StatusRow := mkStatusRow {
  row_clientId : string;
  row_connected : bool;
  row_ip : value;
  row_location_device : value;
  row_lastSeen : Z
}.

(** [app.get("/esp32-clients", ...)]: the rows given to [res.json]. *)
Definition esp32_clients (st : State) : list StatusRow :=
  (λ e, {| row_clientId := e.1;
           row_connected := from_option (λ c, is_open (socket c)) false (sockets st !! ws e.2);
           row_ip := ip (metadata e.2);
           row_location_device := location_device (metadata e.2);
           row_lastSeen := lastSeen (metadata e.2) |}) <$> entries st.

(** ** Start-up of the Telegram bridge *)

(** The two variables of the environment that name the targets. *)
Record Env := mkEnv {
  TARGET_GROUP_ID001 : option string;
  TARGET_PERSONAL_USERNAME : option string
}.

(** A dialog of [getDialogs()], with [id] after [toString()]. *)
Record Dialog := mkDialog {
  dialog_id : string;
  dialog_name : string
}.

(** [dialogs.find((d) => d.id.toString() === targetGroupId001)] *)
Definition find_group (env : Env) (dialogs : list Dialog) : option Dialog :=
  match TARGET_GROUP_ID001 env with
  | Some wanted => List.find (λ d, String.eqb (dialog_id d) wanted) dialogs
  | None => None
  end.

(** [if (targetPersonalUsername)] *)
Definition personal (env : Env) : bool :=
  match TARGET_PERSONAL_USERNAME env with
  | Some name => negb (String.eqb name "")
  | None => false
  end.

(** [targetEntities.map((e) => e.id.toString())], with [user_id] the id of
    the entity that [getEntity(targetPersonalUsername)] resolves to. *)
Definition target_entities (env : Env) (user_id : string) (dialogs : list Dialog) : list string :=
  (if personal env then [user_id] else [])
  ++ match find_group env dialogs with
     | Some group => [dialog_id group]
     | None => []
     end.

(** ** Properties of every accepted socket *)

(** [Q] holds of every socket accepted so far, with the id of its connection. *)
Definition every_socket (Q : string → WebSocket → Prop) (st : State) : Prop :=
  ∀ k c, sockets st !! k = Some c → Q k (socket c).

(** The socket after [frames] more have left, everything else as it was. *)
Definition with_more (frames : list Frame) (w : WebSocket) : WebSocket :=
  {| readyState := readyState w; isAlive := isAlive w;
     sent := sent w ++ frames; terminations := terminations w |}.

(** [inserted] lists the keys of the registry, each once. *)
Definition ordered (st : State) : Prop :=
  NoDup (inserted st) ∧ ∀ k, k ∈ inserted st ↔ is_Some (clients st !! k).

(** The connection [clientId] is known, and its entry is [cd] or gone. *)
Definition entry_or_gone (clientId : string) (cd : ClientData) (st : State) : Prop :=
  is_Some (sockets st !! clientId)
  ∧ (clients st !! clientId = None ∨ clients st !! clientId = Some cd).

(** ** Sample data *)
Module Sample.

Definition quote : string := String (ascii_of_nat 34) EmptyString.

(** The member ["key":"val"] of a JSON object. *)
Definition member (key val : string) : string :=
  quote +:+ key +:+ quote +:+ ":" +:+ quote +:+ val +:+ quote.

Definition heartbeat_text : string := "{" +:+ member "type" "heartbeat" +:+ "}".
Definition unknown_text : string := "{" +:+ member "type" "unknown" +:+ "}".
Definition connect_text : string :=
  "{" +:+ member "type" "connect" +:+ "," +:+ member "location_device" "Lab" +:+ "}".
(** A connect message whose [ip] is the object [{"toString":true}]. *)
Definition poison_text : string :=
  "{" +:+ member "type" "connect" +:+ "," +:+ quote +:+ "ip" +:+ quote +:+ ":{"
      +:+ quote +:+ "toString" +:+ quote +:+ ":true}}".
Definition garbage_text : string := "not json".

(** [JSON.parse] on the texts above; the samples parse no other JSON. *)
Definition parse (text : string) : option value :=
  if String.eqb text heartbeat_text then
    Some (VObject [("type", VString "heartbeat")])
  else if String.eqb text unknown_text then
    Some (VObject [("type", VString "unknown")])
  else if String.eqb text connect_text then
    Some (VObject [("type", VString "connect"); ("location_device", VString "Lab")])
  else if String.eqb text poison_text then
    Some (VObject [("type", VString "connect");
                   ("ip", VObject [("toString", VBool true)])])
  else None.

(** The operator is logged in and chat 42 is the only target; devices A and B
    are accepted at time 0. *)
Definition start : list Event :=
  [LoggedIn; HandlerAdded ["42"];
   Connection "A" (Some "10.0.0.1") 0; Connection "B" (Some "10.0.0.2") 0].

Definition two_devices : State := exec (run parse start) initial.

(** A sends a heartbeat at 20 s; the sweep at 40 s terminates B, whose [close]
    event has not been handled yet. *)
Definition b_closing : State :=
  exec (run parse (start ++ [DeviceMessage "A" heartbeat_text 20000; SweepTimer 40000]))
       initial.

(** A registers with the poisoned address. *)
Definition a_poisoned : State :=
  exec (run parse (start ++ [DeviceMessage "A" poison_text 1000])) initial.

(** After A has registered with the poisoned address, C is accepted at 2 s
    and answers the probe with a pong; the sweep comes at 40 s. *)
Definition c_behind_poisoned : list Event :=
  start ++ [DeviceMessage "A" poison_text 1000; Connection "C" (Some "10.0.0.3") 2000;
            ProbeTimer; Pong "C"; SweepTimer 40000].

Definition allowed : gset string := list_to_set ["42"].

Definition entry (clientId address : string) (seen : Z) : ClientData :=
  {| ws := clientId;
     metadata := {| ip := VString address;
                    location_device := VString "🔄 Waiting...";
                    lastSeen := seen |} |}.

Definition from_operator (text : string) : TgMessage :=
  {| message := Some text; chatId := Some "42"; senderId := Some "7" |}.

(** A message in chat 42 from the given sender, if any. *)
Definition from_member (sender : option string) (text : string) : TgMessage :=
  {| message := Some text; chatId := Some "42"; senderId := sender |}.

Definition from_stranger (text : string) : TgMessage :=
  {| message := Some text; chatId := Some "99"; senderId := Some "8" |}.

End Sample.

(** * Properties *)

Ltac run_M :=
  unfold exec, completes, log, sendMessage, template, on_metadata, on_socket,
    eval, skip, try_catch, mbind, M_bind, bind, mret, M_ret, ret, throw, gets,
    modify in *.

Section Device.

Variable JSON_parse : string → option value.

Lemma get_string_object data key lit :
  get data "type" = Some (VString lit) → is_Some (get data key).
Proof. destruct data; simpl; intros; try discriminate; eauto. Qed.

Lemma is_string_true lit v : is_string lit v = true → v = VString lit.
Proof.
  destruct v; simpl; try discriminate.
  intros H. apply String.eqb_eq in H. by subst.
Qed.

(** The state after a message the handler does not act on. *)
Lemma on_message_unrecognised clientId clientIP text now st :
  recognised JSON_parse text = false →
  ∃ lines,
    on_message JSON_parse clientId clientIP text now st =
      (Normal tt,
       {| clients := clients st; inserted := inserted st; sockets := sockets st;
          telegramSelfUser := telegramSelfUser st;
          allowedChatIds := allowedChatIds st; operator := operator st;
          console := console st ++ LogMessageFrom clientId text :: lines |}).
Proof.
  unfold recognised, on_message, message_body. intros Hrec. run_M. simpl.
  destruct (JSON_parse text) as [data|]; simpl.
  2: { eexists. rewrite <- app_assoc. reflexivity. }
  destruct (clients st !! clientId) as [cd|]; simpl.
  2: { exists []. reflexivity. }
  destruct (get data "type") as [type|]; simpl.
  2: { eexists. rewrite <- app_assoc. reflexivity. }
  apply orb_false_iff in Hrec as [-> ->]. simpl.
  eexists. rewrite <- app_assoc. reflexivity.
Qed.

(** The state after a heartbeat message of a registered connection. *)
Lemma on_message_heartbeat clientId clientIP text now st data type cd :
  JSON_parse text = Some data →
  get data "type" = Some type →
  is_string "heartbeat" type = true →
  clients st !! clientId = Some cd →
  ∃ lines,
    on_message JSON_parse clientId clientIP text now st =
      (Normal tt,
       {| clients :=
            alter (λ cd, {| ws := ws cd;
                            metadata := {| ip := ip (metadata cd);
                                           location_device := location_device (metadata cd);
                                           lastSeen := now |} |}) clientId (clients st);
          inserted := inserted st;
        sockets := sockets st;
          telegramSelfUser := telegramSelfUser st;
          allowedChatIds := allowedChatIds st; operator := operator st;
          console := console st ++ LogMessageFrom clientId text :: lines |}).
Proof.
  intros Hparse Htype Hhb Hcd.
  apply is_string_true in Hhb as ->.
  unfold on_message, message_body. run_M. simpl.
  rewrite Hparse. simpl. rewrite Hcd. simpl. rewrite Htype. simpl.
  destruct (printable (ip (metadata cd))); simpl;
    eexists; rewrite <- app_assoc; reflexivity.
Qed.

(** The registry after a connect message of a registered connection. *)
Lemma on_message_connect clientId clientIP text now st data type cd :
  JSON_parse text = Some data →
  get data "type" = Some type →
  is_string "connect" type = true →
  clients st !! clientId = Some cd →
  ∃ notes lines,
    on_message JSON_parse clientId clientIP text now st =
      (Normal tt,
       {| clients :=
            <[clientId :=
                {| ws := clientId;
                   metadata :=
                     {| ip := or_else (default VUndefined (get data "ip")) clientIP;
                        location_device :=
                          or_else (default VUndefined (get data "location_device"))
                                  (VString "Unknown");
                        lastSeen := now |} |}]> (clients st);
          inserted := inserted st;
        sockets := sockets st;
          telegramSelfUser := telegramSelfUser st;
          allowedChatIds := allowedChatIds st;
          operator := operator st ++ notes;
          console := console st ++ LogMessageFrom clientId text :: lines |}).
Proof.
  intros Hparse Htype Hc Hcd.
  apply is_string_true in Hc as ->.
  destruct (get_string_object data "ip" _ Htype) as [vip Hip].
  destruct (get_string_object data "location_device" _ Htype) as [vloc Hloc].
  unfold on_message, message_body. run_M. simpl.
  rewrite Hparse. simpl. rewrite Hcd. simpl. rewrite Htype. simpl.
  rewrite Hloc, Hip. simpl.
  unfold Map_set. simpl.
  rewrite !bool_decide_eq_true_2 by (rewrite !lookup_alter_eq, Hcd; simpl; eauto).
  destruct (printable _ && _); simpl.
  - destruct (telegramSelfUser st); simpl; rewrite !insert_alter_eq.
    + eexists [_]. eexists. rewrite <- app_assoc. reflexivity.
    + exists []. eexists. rewrite app_nil_r, <- app_assoc. reflexivity.
  - rewrite !insert_alter_eq.
    exists []. eexists. rewrite app_nil_r, <- app_assoc. reflexivity.
Qed.

(** C6. A device message whose payload fails to parse is discarded: the
    handler completes, the registry and every socket are as before (so the
    connection is not closed and nothing is delivered), nothing is sent to the
    operator, and the console gets the line of the message and the line of
    the error. *)
Theorem malformed_message_discarded clientId clientIP text now st :
  JSON_parse text = None →
  let st' := exec (on_message JSON_parse clientId clientIP text now) st in
  completes (on_message JSON_parse clientId clientIP text now) st
  ∧ clients st' = clients st
  ∧ sockets st' = sockets st
  ∧ operator st' = operator st
  ∧ console st' = console st ++ [LogMessageFrom clientId text; LogInvalidJSON clientId].
Proof.
  intros Hparse. unfold on_message, message_body. run_M. simpl.
  rewrite Hparse. simpl. rewrite <- app_assoc. done.
Qed.

(** C9. A device message whose type is neither connect nor heartbeat leaves
    the whole registry (so the entry of the connection too) and every socket as
    they were: the connection stays as open as it was, and nothing is sent to
    the operator. *)
Theorem unknown_type_changes_nothing clientId clientIP text now st data type :
  JSON_parse text = Some data →
  get data "type" = Some type →
  is_string "connect" type = false →
  is_string "heartbeat" type = false →
  let st' := exec (on_message JSON_parse clientId clientIP text now) st in
  completes (on_message JSON_parse clientId clientIP text now) st
  ∧ clients st' = clients st
  ∧ sockets st' = sockets st
  ∧ socket_of st' clientId = socket_of st clientId
  ∧ operator st' = operator st.
Proof.
  intros Hparse Htype Hc Hh.
  destruct (on_message_unrecognised clientId clientIP text now st) as [lines E].
  { unfold recognised. by rewrite Hparse, Htype, Hc, Hh. }
  unfold exec, completes, socket_of. rewrite E. done.
Qed.

(** C4. A heartbeat message of a registered connection sets the [lastSeen] of
    its entry to the time of receipt and keeps the address and the label of the
    entry; every other entry, every socket and the messages sent to the operator
    are as before. *)
Theorem heartbeat_touches_lastSeen_only clientId clientIP text now st data cd :
  JSON_parse text = Some data →
  get data "type" = Some (VString "heartbeat") →
  clients st !! clientId = Some cd →
  let st' := exec (on_message JSON_parse clientId clientIP text now) st in
  clients st' !! clientId =
    Some {| ws := ws cd;
            metadata := {| ip := ip (metadata cd);
                           location_device := location_device (metadata cd);
                           lastSeen := now |} |}
  ∧ (∀ other, other ≠ clientId → clients st' !! other = clients st !! other)
  ∧ sockets st' = sockets st
  ∧ operator st' = operator st.
Proof.
  intros Hparse Htype Hcd.
  destruct (on_message_heartbeat clientId clientIP text now st data _ cd
              Hparse Htype eq_refl Hcd) as [lines E].
  unfold exec. rewrite E. simpl. split_and!; try done.
  - by rewrite lookup_alter_eq, Hcd.
  - intros other Hne. by rewrite lookup_alter_ne.
Qed.

(** C5, as the code has it. For a registered connection, a connect or a
    heartbeat message sets the [lastSeen] of the entry to the time of receipt;
    any other message, a malformed one included, leaves it as it was. *)
Theorem lastSeen_after_message clientId clientIP text now st cd :
  clients st !! clientId = Some cd →
  let st' := exec (on_message JSON_parse clientId clientIP text now) st in
  (λ e, lastSeen (metadata e)) <$> clients st' !! clientId =
    Some (if recognised JSON_parse text then now else lastSeen (metadata cd)).
Proof.
  intros Hcd. destruct (recognised JSON_parse text) eqn:Hrec.
  - unfold recognised in Hrec.
    destruct (JSON_parse text) as [data|] eqn:Hparse; [|done].
    destruct (get data "type") as [type|] eqn:Htype; [|done].
    apply orb_true_iff in Hrec as [Hc|Hh].
    + destruct (on_message_connect clientId clientIP text now st data type cd)
        as (notes & lines & E); try done.
      unfold exec. rewrite E. simpl. by rewrite lookup_insert_eq.
    + destruct (on_message_heartbeat clientId clientIP text now st data type cd)
        as (lines & E); try done.
      unfold exec. rewrite E. simpl. by rewrite lookup_alter_eq, Hcd.
  - destruct (on_message_unrecognised clientId clientIP text now st Hrec) as [lines E].
    unfold exec. rewrite E. simpl. by rewrite Hcd.
Qed.

End Device.

(** ** Loops over the registry *)

Lemma same_registry_refl st : same_registry st st.
Proof. by repeat split. Qed.

Lemma same_registry_trans st1 st2 st3 :
  same_registry st1 st2 → same_registry st2 st3 → same_registry st1 st3.
Proof. unfold same_registry. intros (-> & -> & -> & ->) (-> & -> & -> & ->). done. Qed.

(** A loop whose every iteration completes and acts on the sockets alone acts
    as the fold of its iterations. *)
Lemma for_of_sockets {A} (xs : list A) (body : A → M unit)
    (g : A → gmap string Closure → gmap string Closure) :
  (∀ x st, x ∈ xs →
     ∃ st', body x st = (Normal tt, st') ∧ same_registry st st'
            ∧ sockets st' = g x (sockets st)) →
  ∀ st, ∃ st', for_of xs body st = (Normal tt, st') ∧ same_registry st st'
               ∧ sockets st' = foldl (λ m x, g x m) (sockets st) xs.
Proof.
  induction xs as [|x xs IH]; intros Hbody st; simpl.
  - exists st. split; [done|]. split; [apply same_registry_refl|done].
  - destruct (Hbody x st) as (st1 & E1 & F1 & S1); [left|].
    destruct IH with (st := st1) as (st2 & E2 & F2 & S2).
    { intros y st0 Hy. apply Hbody. by right. }
    exists st2. unfold bind. rewrite E1, E2. split; [done|].
    split; [by eapply same_registry_trans|]. by rewrite S2, S1.
Qed.

(** The socket of a connection after a fold of method calls over registry
    entries with distinct keys, each naming the socket of its own key. *)
Lemma foldl_alter_lookup (h : string * ClientData → Closure → Closure)
    (es : list (string * ClientData)) (m : gmap string Closure) (k : string) :
  NoDup es.*1 →
  Forall (λ e, ws e.2 = e.1) es →
  foldl (λ m e, alter (h e) (ws e.2) m) m es !! k =
    match (list_to_map es : gmap string ClientData) !! k with
    | Some cd => h (k, cd) <$> m !! k
    | None => m !! k
    end.
Proof.
  revert m. induction es as [|[k0 cd0] es IH]; intros m Hnd Hws; simpl.
  - by rewrite lookup_empty.
  - apply NoDup_cons in Hnd as [Hk0 Hnd]. apply Forall_cons in Hws as [Hw Hws].
    simpl in *. rewrite Hw, IH by done.
    destruct (decide (k = k0)) as [->|Hne].
    + rewrite lookup_insert_eq, lookup_alter_eq.
      by rewrite (not_elem_of_list_to_map_1 _ _ Hk0).
    + rewrite lookup_insert_ne, lookup_alter_ne by done. done.
Qed.

(** The order apart, the entries are those of the map. *)
Lemma entries_Permutation st : entries st ≡ₚ map_to_list (clients st).
Proof. apply merge_sort_Permutation. Qed.

Lemma elem_of_entries st k cd : (k, cd) ∈ entries st ↔ clients st !! k = Some cd.
Proof. rewrite entries_Permutation. apply elem_of_map_to_list. Qed.

Lemma NoDup_fst_entries st : NoDup (entries st).*1.
Proof. rewrite entries_Permutation. apply NoDup_fst_map_to_list. Qed.

(** The entries of a well-formed registry. *)
Lemma entries_wf st :
  wf st → NoDup (entries st).*1 ∧ Forall (λ e, ws e.2 = e.1) (entries st).
Proof.
  intros Hwf. split; [apply NoDup_fst_entries|].
  apply Forall_forall. intros [k cd] Hin. simpl.
  apply elem_of_entries in Hin. by apply Hwf in Hin as [? _].
Qed.

(** The socket of a connection after a loop of method calls over a
    well-formed registry. *)
Lemma registry_fold_lookup (h : string * ClientData → Closure → Closure) st k :
  wf st →
  foldl (λ m e, alter (h e) (ws e.2) m) (sockets st) (entries st) !! k =
    match clients st !! k with
    | Some cd => h (k, cd) <$> sockets st !! k
    | None => sockets st !! k
    end.
Proof.
  intros Hwf. destruct (entries_wf st Hwf) as [Hnd Hws].
  rewrite foldl_alter_lookup by done.
  rewrite (list_to_map_proper (entries st) (map_to_list (clients st)) Hnd
             (entries_Permutation st)).
  by rewrite list_to_map_to_list.
Qed.

Lemma call_id (f : WebSocket → WebSocket) c : f (socket c) = socket c → call f c = c.
Proof. destruct c. unfold call. simpl. by intros ->. Qed.

Lemma send_not_open frame w : is_open w = false → send frame w = w.
Proof. unfold send. by intros ->. Qed.

Lemma send_open frame w : is_open w = true → send frame w = push frame w.
Proof. unfold send. by intros ->. Qed.

(** [broadcast] hands the frame to the socket of every registry entry, where
    it leaves if the socket is open. *)
Lemma broadcast_spec frame st :
  wf st →
  ∃ st', broadcast frame st = (Normal tt, st') ∧ same_registry st st'
    ∧ ∀ k, sockets st' !! k =
        match clients st !! k with
        | Some _ => call (send frame) <$> sockets st !! k
        | None => sockets st !! k
        end.
Proof.
  intros Hwf. unfold broadcast. run_M. simpl.
  edestruct (for_of_sockets (entries st)) as (st' & E & F & S); cycle 1.
  - exists st'. rewrite E. split; [done|]. split; [done|].
    intros k. rewrite S.
    by rewrite (registry_fold_lookup (λ _, call (send frame))).
  - intros e st0 _. simpl.
    destruct (sockets st0 !! ws e.2) as [c|] eqn:Hc; simpl.
    + destruct (is_open (socket c)) eqn:Ho; simpl.
      * eexists. split; [done|]. split; [by repeat split|done].
      * exists st0. split; [done|]. split; [apply same_registry_refl|].
        symmetry. apply alter_id. intros c' Hc'.
        rewrite Hc in Hc'. injection Hc' as <-.
        apply call_id. by apply send_not_open.
    + exists st0. split; [done|]. split; [apply same_registry_refl|].
      symmetry. apply alter_id. intros c' Hc'. congruence.
Qed.

(** [deliver] hands the command to the socket of the entry whose key is the
    target, where it leaves if the socket is open. *)
Lemma deliver_spec clientID command st :
  wf st →
  ∃ st', deliver clientID command st = (Normal tt, st') ∧ same_registry st st'
    ∧ ∀ k, sockets st' !! k =
        match clients st !! k with
        | Some _ =>
            (if String.eqb k clientID then call (send (Direct clientID command)) else id)
              <$> sockets st !! k
        | None => sockets st !! k
        end.
Proof.
  intros Hwf. unfold deliver. run_M. simpl.
  edestruct (for_of_sockets (entries st)) as (st' & E & F & S); cycle 1.
  - exists st'. rewrite E. split; [done|]. split; [done|].
    intros k. rewrite S.
    by rewrite (registry_fold_lookup
      (λ e, if String.eqb e.1 clientID
            then call (send (Direct clientID command)) else id)).
  - intros e st0 _. simpl.
    destruct (String.eqb e.1 clientID) eqn:Hk; simpl.
    + destruct (sockets st0 !! ws e.2) as [c|] eqn:Hc; simpl.
      * destruct (is_open (socket c)) eqn:Ho; simpl.
        -- eexists. split; [done|]. split; [by repeat split|done].
        -- exists st0. split; [done|]. split; [apply same_registry_refl|].
           symmetry. apply alter_id. intros c' Hc'.
           rewrite Hc in Hc'. injection Hc' as <-.
           apply call_id. by apply send_not_open.
      * exists st0. split; [done|]. split; [apply same_registry_refl|].
        symmetry. apply alter_id. intros c' Hc'. congruence.
    + exists st0. split; [done|]. split; [apply same_registry_refl|].
      symmetry. by apply alter_id.
Qed.

(** [sweep_tick] completes when every address in the registry has a string
    conversion; it calls [terminate] on the socket of every stale entry and
    leaves the registry as it is. *)
Lemma sweep_tick_spec now st :
  wf st →
  printable_registry st →
  ∃ st', sweep_tick now st = (Normal tt, st') ∧ same_registry st st'
    ∧ ∀ k, sockets st' !! k =
        match clients st !! k with
        | Some cd => (if stale now cd then call terminate else id) <$> sockets st !! k
        | None => sockets st !! k
        end.
Proof.
  intros Hwf Hpr. unfold sweep_tick. run_M. simpl.
  edestruct (for_of_sockets (entries st)) as (st' & E & F & S); cycle 1.
  - exists st'. rewrite E. split; [done|]. split; [done|].
    intros k. rewrite S.
    by rewrite (registry_fold_lookup
      (λ e, if stale now e.2 then call terminate else id)).
  - intros [k cd] st0 Hin. simpl.
    apply elem_of_entries in Hin. apply Hpr in Hin. simpl in Hin.
    unfold stale. destruct (bool_decide _); simpl.
    + rewrite Hin. simpl.
      eexists. split; [done|]. split; [by repeat split|done].
    + exists st0. split; [done|]. split; [apply same_registry_refl|].
      symmetry. by apply alter_id.
Qed.

(** ** The addressing rule *)

Lemma split_not_nil sep s : Str.split sep s ≠ [].
Proof. destruct s as [|c s]; simpl; [done|]. by repeat case_match. Qed.

(** Text before the first separator is the first part. *)
Lemma split_prefix sep a b :
  Str.free_of sep a = true →
  Str.split sep (a +:+ String sep b) = a :: Str.split sep b.
Proof.
  induction a as [|c a IH]; simpl; intros Hfree.
  - by rewrite Ascii.eqb_refl.
  - apply andb_true_iff in Hfree as [Hc Hfree].
    apply negb_true_iff in Hc. rewrite Hc, IH by done. done.
Qed.

(** Joining the parts with the separator gives the text back. *)
Lemma join_split sep s : Str.join (String sep EmptyString) (Str.split sep s) = s.
Proof.
  induction s as [|c s IH]; simpl; [done|].
  destruct (Ascii.eqb_spec c sep) as [->|Hne].
  - pose proof (split_not_nil sep s) as Hnil.
    simpl. destruct (Str.split sep s) as [|p ps] eqn:E; [done|].
    simpl in *. by rewrite IH.
  - pose proof (split_not_nil sep s) as Hnil.
    destruct (Str.split sep s) as [|p ps] eqn:E; [done|].
    destruct ps as [|p' ps]; simpl in *; by rewrite <- IH.
Qed.

(** The parts of [tag:id:cmd]. *)
Lemma split_command tag id cmd :
  Str.free_of ":" tag = true →
  Str.free_of ":" id = true →
  ∃ rest,
    Str.split ":" (tag +:+ ":" +:+ id +:+ ":" +:+ cmd) = tag :: id :: rest
    ∧ rest ≠ [] ∧ Str.join ":" rest = cmd.
Proof.
  intros Htag Hid. exists (Str.split ":" cmd).
  change (":" +:+ id +:+ ":" +:+ cmd) with (String ":" (id +:+ String ":" cmd)).
  rewrite !split_prefix by done.
  split; [done|]. split; [apply split_not_nil|apply join_split].
Qed.

Section Bridge.

Variable allowed : gset string.

(** C8. A message from a chat that is not in [allowedChatIds] changes
    nothing: the handler completes in the state it started in, so nothing is
    delivered, the registry is as before, not even a line is logged, and any
    run of the server goes on as if the message had not arrived. *)
Theorem unlisted_chat_ignored (JSON_parse : string → option value)
    (msg : TgMessage) (st : State) (later : list Event) :
  (∀ chat, chatId msg = Some chat → chat ∉ allowed) →
  allowedChatIds st = Some allowed →
  telegram_handler allowed (Some msg) st = (Normal tt, st)
  ∧ run JSON_parse (NewMessage (Some msg) :: later) st = run JSON_parse later st.
Proof.
  intros Hchat Hset.
  assert (telegram_handler allowed (Some msg) st = (Normal tt, st)) as E.
  { unfold telegram_handler. destruct (message msg) as [text|]; [|done].
    destruct (String.eqb text ""); [done|].
    destruct (chatId msg) as [chat|]; [|done].
    rewrite bool_decide_eq_false_2 by auto. done. }
  split; [done|].
  assert (dispatch JSON_parse (NewMessage (Some msg)) st = (Normal tt, st)) as D.
  { unfold dispatch, mbind, M_bind, bind, gets. by rewrite Hset. }
  unfold run. change (for_of (?e :: ?es) ?b) with (bind (b e) (λ _, for_of es b)).
  unfold bind. by rewrite D.
Qed.

(** C3. An accepted message that does not match the addressing rule is
    relayed as [{from, sender, message}], where [from] is the chat id, [sender]
    is the sender id of the message, or ["unknown"] when it has none or an
    empty one, and [message] is the text: the handler completes, and the frame
    is appended to what was sent on the socket of every registry entry that is
    open; a socket that is not open, or whose connection has no entry, sent
    nothing more.  The registry itself is as before. *)
Theorem relay_reaches_open_connections (msg : TgMessage) (text chat : string) (st : State) :
  wf st →
  message msg = Some text →
  text ≠ "" →
  chatId msg = Some chat →
  chat ∈ allowed →
  (length (Str.split ":" text) < 3)%nat
    ∨ Str.toLowerCase (nth 0 (Str.split ":" text) "") ≠ "esp32" →
  let st' := exec (telegram_handler allowed (Some msg)) st in
  let sender := match senderId msg with
                | Some "" | None => "unknown"
                | Some id => id
                end in
  completes (telegram_handler allowed (Some msg)) st
  ∧ clients st' = clients st
  ∧ ∀ k, socket_of st' k =
      (λ w, if bool_decide (is_Some (clients st !! k)) && is_open w
            then push (Relay chat sender text) w else w)
        <$> socket_of st k.
Proof.
  intros Hwf Hmsg Htext Hchat Hin Hrule.
  assert (sender_of msg = match senderId msg with
                          | Some "" | None => "unknown"
                          | Some id => id
                          end) as Hsender.
  { unfold sender_of. by destruct (senderId msg) as [[|? ?]|]. }
  cbv zeta. rewrite <- Hsender. clear Hsender.
  assert (addressed (Str.split ":" text) = false) as Haddr.
  { unfold addressed. apply andb_false_iff. destruct Hrule as [Hlen|Htag].
    - left. apply Nat.leb_gt. lia.
    - right. by apply String.eqb_neq. }
  unfold telegram_handler. rewrite Hmsg, Hchat.
  apply String.eqb_neq in Htext. rewrite Htext.
  rewrite bool_decide_eq_true_2 by done. simpl. rewrite Haddr.
  run_M. simpl.
  match goal with |- context [broadcast ?f ?s] =>
    destruct (broadcast_spec f s) as (st' & E & (Hc & _) & S); [done|] end.
  rewrite E. simpl in *. split; [done|]. split; [done|].
  intros k. unfold socket_of. rewrite S.
  destruct (clients st !! k) as [cd|]; simpl.
  - rewrite ?bool_decide_eq_true_2 by eauto. simpl.
    destruct (sockets st !! k) as [c|]; simpl; [|done].
    unfold send. by destruct (is_open (socket c)).
  - rewrite ?bool_decide_eq_false_2 by (by intros [? ?]). simpl.
    by destruct (sockets st !! k).
Qed.

(** C2. An accepted message [tag:id:cmd] whose tag is [esp32] in any case
    delivers [{clientID: id, message: cmd}] to the connection [id] exactly when
    [id] has a registry entry and its socket is open, and to that connection
    alone: every other socket, and that of [id] when it has no entry or is not
    open, sent nothing more.  The handler completes and the registry is as
    before. *)
Theorem command_reaches_its_target (msg : TgMessage) (tag id cmd chat : string) (st : State) :
  wf st →
  message msg = Some (tag +:+ ":" +:+ id +:+ ":" +:+ cmd) →
  Str.free_of ":" tag = true →
  Str.free_of ":" id = true →
  Str.toLowerCase tag = "esp32" →
  chatId msg = Some chat →
  chat ∈ allowed →
  let st' := exec (telegram_handler allowed (Some msg)) st in
  completes (telegram_handler allowed (Some msg)) st
  ∧ clients st' = clients st
  ∧ ∀ k, socket_of st' k =
      (λ w, if bool_decide (k = id) && bool_decide (is_Some (clients st !! k)) && is_open w
            then push (Direct id cmd) w else w)
        <$> socket_of st k.
Proof.
  intros Hwf Hmsg Htag Hid Hlow Hchat Hin.
  destruct (split_command tag id cmd Htag Hid) as (rest & Hsplit & Hrest & Hjoin).
  unfold telegram_handler. rewrite Hmsg, Hchat.
  assert (String.eqb (tag +:+ ":" +:+ id +:+ ":" +:+ cmd) "" = false) as ->.
  { apply String.eqb_neq. intros E. rewrite E in Hsplit. discriminate. }
  rewrite bool_decide_eq_true_2 by done. simpl.
  change (String ":" (id +:+ String ":" cmd)) with (":" +:+ id +:+ ":" +:+ cmd).
  rewrite Hsplit. unfold addressed. simpl. rewrite Hlow, drop_0, Hjoin.
  destruct rest as [|r rest]; [done|]. simpl.
  run_M. simpl.
  match goal with |- context [deliver ?a ?b ?s] =>
    destruct (deliver_spec a b s) as (st' & E & (Hc & _) & S); [done|] end.
  rewrite E. simpl in *. split; [done|]. split; [done|].
  intros k. unfold socket_of. rewrite S.
  destruct (String.eqb_spec k id) as [->|Hne].
  - rewrite bool_decide_eq_true_2 by done. simpl.
    destruct (clients st !! id) as [cd|]; simpl.
    + rewrite ?bool_decide_eq_true_2 by eauto. simpl.
      destruct (sockets st !! id) as [c|]; simpl; [|done].
      unfold send. by destruct (is_open (socket c)).
    + rewrite ?bool_decide_eq_false_2 by (by intros [? ?]). simpl.
      by destruct (sockets st !! id).
  - rewrite bool_decide_eq_false_2 by done. simpl.
    destruct (clients st !! k); by destruct (sockets st !! k).
Qed.

End Bridge.

(** ** Close, error and the sweep *)

Lemma printable_or_else v s : printable v = true → printable (or_else v (VString s)) = true.
Proof. unfold or_else. by destruct (truthy v). Qed.

(** The [close] event of a connection whose address, if it has an entry, has a
    string conversion: the socket is closed and the entry is gone. *)
Lemma emit_close_spec clientId st :
  (∀ cd, clients st !! clientId = Some cd → printable (ip (metadata cd)) = true) →
  ∃ st', emit_close clientId st = (Normal tt, st')
    ∧ clients st' = delete clientId (clients st)
    ∧ sockets st' = alter (call closed) clientId (sockets st)
    ∧ operator st' = operator st.
Proof.
  intros Hpr. unfold emit_close, on_close. run_M. simpl.
  assert (printable (or_else (from_option (λ cd, ip (metadata cd)) VUndefined
            (clients st !! clientId)) (VString "unknown")) = true) as ->.
  { apply printable_or_else. destruct (clients st !! clientId); simpl; auto. }
  simpl. eauto.
Qed.

(** The [error] event: the socket has begun to close, a line is logged, and
    the registry is as before. *)
Lemma emit_error_spec clientId message st :
  ∃ st', emit_error clientId message st = (Normal tt, st')
    ∧ clients st' = clients st
    ∧ sockets st' = alter (call closing) clientId (sockets st)
    ∧ operator st' = operator st
    ∧ console st' = console st ++ [LogError clientId message].
Proof. unfold emit_error, on_error. run_M. simpl. eauto 10. Qed.

Lemma closing_not_open w : is_open (closing w) = false.
Proof. unfold is_open, closing. simpl. by destruct (bool_decide (_ = CLOSED)). Qed.

(** C7, as the code has it. The [close] event of a connection removes its
    entry from the registry and leaves every other entry (here for an entry
    whose address has a string conversion, which the log line of the handler
    needs).  The [error] event does not remove the entry: its handler only
    writes a log line, so that after the event the registry is as before while
    the socket, which the library has begun to close, is no longer open.  The
    entry goes when the [close] event that follows the error is handled. *)
Theorem close_removes_error_leaves_to_close clientId message st :
  (∀ cd, clients st !! clientId = Some cd → printable (ip (metadata cd)) = true) →
  let st1 := exec (emit_error clientId message) st in
  let st2 := exec (emit_close clientId) st1 in
  (completes (emit_close clientId) st
   ∧ clients (exec (emit_close clientId) st) = delete clientId (clients st)
   ∧ clients (exec (emit_close clientId) st) !! clientId = None)
  ∧ (completes (emit_error clientId message) st
     ∧ clients st1 = clients st
     ∧ (∀ k, socket_of st1 k =
          (if bool_decide (k = clientId) then closing else id) <$> socket_of st k)
     ∧ (∀ w, socket_of st1 clientId = Some w → is_open w = false)
     ∧ console st1 = console st ++ [LogError clientId message])
  ∧ (completes (emit_close clientId) st1
     ∧ clients st2 = delete clientId (clients st)
     ∧ clients st2 !! clientId = None).
Proof.
  intros Hpr. cbv zeta.
  destruct (emit_close_spec clientId st Hpr) as (st' & E & Hc & _).
  destruct (emit_error_spec clientId message st) as (st1 & E1 & C1 & S1 & _ & L1).
  destruct (emit_close_spec clientId st1) as (st2 & E2 & C2 & _).
  { by rewrite C1. }
  unfold completes, exec. rewrite E, E1. cbn [fst snd]. rewrite E2. cbn [fst snd].
  rewrite Hc, C2, C1. split_and!; try done; try apply lookup_delete_eq.
  - intros k. unfold socket_of. rewrite S1. case_bool_decide as Hk.
    + subst. rewrite lookup_alter_eq. by destruct (sockets st !! clientId).
    + rewrite lookup_alter_ne by done. by destruct (sockets st !! k).
  - intros w. unfold socket_of. rewrite S1, lookup_alter_eq.
    destruct (sockets st !! clientId) as [c|]; [|done]. simpl.
    intros [= <-]. apply closing_not_open.
Qed.

(** The sweep on a stale entry: it completes, calls [terminate] on the socket
    of the entry and keeps the registry. *)
Lemma sweep_terminates_stale now clientId cd st :
  wf st →
  printable_registry st →
  clients st !! clientId = Some cd →
  now - lastSeen (metadata cd) > 30000 →
  ∃ st1 c, sweep_tick now st = (Normal tt, st1)
    ∧ clients st1 = clients st
    ∧ sockets st !! clientId = Some c
    ∧ sockets st1 !! clientId = Some (call terminate c).
Proof.
  intros Hwf Hpr Hcd Hstale.
  destruct (sweep_tick_spec now st Hwf Hpr) as (st1 & E1 & (Hc1 & _) & S1).
  destruct (Hwf _ _ Hcd) as [_ [c Hc]].
  exists st1, c. split_and!; try done.
  rewrite S1, Hcd, Hc. unfold stale.
  by rewrite bool_decide_eq_true_2.
Qed.

Lemma terminate_not_open w : is_open (terminate w) = false.
Proof. unfold is_open, terminate. simpl. by destruct (bool_decide (_ = CLOSED)). Qed.

(** C1, as the code has it. For a connection whose entry is older than 30
    seconds, the sweep calls [terminate] on its socket, which is then no
    longer open, and leaves the registry as it is: the entry is still there
    when the sweep returns.  The entry goes when the [close] event that follows
    the termination is handled.  (Every address in the registry is taken to
    have a string conversion, which the log line of the sweep needs.) *)
Theorem sweep_terminates_close_removes now clientId cd st :
  wf st →
  printable_registry st →
  clients st !! clientId = Some cd →
  now - lastSeen (metadata cd) > 30000 →
  let st1 := exec (sweep_tick now) st in
  let st2 := exec (emit_close clientId) st1 in
  ∃ w, socket_of st clientId = Some w
    ∧ completes (sweep_tick now) st
    ∧ socket_of st1 clientId = Some (terminate w)
    ∧ is_open (terminate w) = false
    ∧ clients st1 = clients st
    ∧ completes (emit_close clientId) st1
    ∧ clients st2 !! clientId = None
    ∧ socket_of st2 clientId = Some (closed (terminate w)).
Proof.
  intros Hwf Hpr Hcd Hstale.
  destruct (sweep_terminates_stale now clientId cd st Hwf Hpr Hcd Hstale)
    as (st1 & c & E1 & Hc1 & Hc & Hc').
  destruct (emit_close_spec clientId st1) as (st2 & E2 & Hc2 & S2 & _).
  { rewrite Hc1. intros cd' Hcd'. by apply Hpr in Hcd'. }
  exists (socket c). unfold socket_of, completes, exec.
  rewrite E1. cbn [fst snd]. rewrite E2. cbn [fst snd].
  rewrite Hc2, S2, lookup_alter_eq, Hc', Hc. simpl.
  split_and!; try done.
  - apply terminate_not_open.
  - apply lookup_delete_eq.
Qed.


(** ** Accepting a connection *)

Lemma wf_same st st' :
  wf st → clients st' = clients st →
  (∀ k, is_Some (sockets st !! k) → is_Some (sockets st' !! k)) → wf st'.
Proof.
  intros Hwf Hc Hs k cd Hk. rewrite Hc in Hk.
  destruct (Hwf k cd Hk) as [? ?]. auto.
Qed.

(** The state after a connection with a fresh id is accepted. *)
Lemma on_connection_spec clientId remoteAddress now st :
  ∃ st', on_connection clientId remoteAddress now st = (Normal tt, st')
    ∧ clients st' =
        <[clientId := {| ws := clientId;
                         metadata := {| ip := from_option VString VUndefined remoteAddress;
                                        location_device := VString "🔄 Waiting...";
                                        lastSeen := now |} |}]> (clients st)
    ∧ sockets st' =
        <[clientId := {| socket := push (Connected clientId) (set_isAlive true accepted);
                         clientIP := from_option VString VUndefined remoteAddress |}]>
          (sockets st)
    ∧ operator st' = operator st.
Proof.
  unfold on_connection. run_M. simpl. eexists. split; [done|]. simpl.
  split; [done|]. split; [|done]. by rewrite alter_insert_eq.
Qed.

(** ** Well-formedness is an invariant of the event loop *)

Lemma preserves_bind {A B} P (m : M A) (k : A → M B) :
  preserves P m → (∀ a, preserves P (k a)) → preserves P (m ≫= k).
Proof.
  intros Hm Hk st HP. unfold mbind, M_bind, bind.
  specialize (Hm st HP). destruct (m st) as [[a|] st1]; simpl in *; [|done].
  by apply Hk.
Qed.

Lemma preserves_for_of {A} P (xs : list A) (body : A → M unit) :
  (∀ x, preserves P (body x)) → preserves P (for_of xs body).
Proof.
  intros Hbody. induction xs as [|x xs IH]; simpl; [by intros st|].
  by apply (preserves_bind P (body x) (λ _, for_of xs body)).
Qed.

Lemma preserves_try_catch P body handler :
  preserves P body → preserves P handler → preserves P (try_catch body handler).
Proof.
  intros Hb Hh st HP. unfold try_catch.
  specialize (Hb st HP). destruct (body st) as [[a|] st1]; simpl in *; [done|].
  by apply Hh.
Qed.

Lemma preserves_pure {A} P (m : M A) : (∀ st, (m st).2 = st) → preserves P m.
Proof. intros Hm st HP. by rewrite Hm. Qed.

Lemma preserves_same known (f : State → State) :
  (∀ st, clients (f st) = clients st ∧ sockets (f st) = sockets st) →
  preserves (registry_ok known) (modify f).
Proof.
  intros Hf st [Hwf Hk]. destruct (Hf st) as [Hc Hs]. simpl.
  split; [|by rewrite Hs].
  eapply wf_same; [done..|]. by rewrite Hs.
Qed.

Lemma preserves_on_socket known f ref :
  preserves (registry_ok known) (on_socket f ref).
Proof.
  intros st [Hwf Hk]. unfold on_socket. simpl. split.
  - eapply wf_same; [done..|]. intros k. simpl.
    intros. by apply lookup_alter_is_Some.
  - intros id Hid. simpl. by apply lookup_alter_is_Some, Hk.
Qed.

Lemma preserves_on_metadata known f clientId :
  preserves (registry_ok known) (on_metadata f clientId).
Proof.
  intros st [Hwf Hk]. unfold on_metadata. simpl. split; [|done].
  intros k cd. simpl. intros Hcd.
  apply lookup_alter_Some in Hcd as [(-> & cd0 & Hcd0 & ->)|[_ Hcd]]; simpl.
  - by apply Hwf in Hcd0.
  - by apply Hwf in Hcd.
Qed.

Lemma preserves_set_entry clientId md :
  preserves (registry_ok (Some clientId))
    (modify (Map_set clientId {| ws := clientId; metadata := md |})).
Proof.
  intros st [Hwf Hk]. simpl. split; [|done].
  intros k cd. simpl. intros Hcd.
  apply lookup_insert_Some in Hcd as [[<- <-]|[_ Hcd]]; simpl.
  - split; [done|]. by apply Hk.
  - by apply Hwf in Hcd.
Qed.

Lemma preserves_delete_entry known clientId :
  preserves (registry_ok known) (modify (Map_delete clientId)).
Proof.
  intros st [Hwf Hk]. simpl. split; [|done]. by apply map_Forall_delete.
Qed.

Ltac preserves_step :=
  lazymatch goal with
  | |- preserves _ (_ ≫= _) => apply preserves_bind; [|intros ?]
  | |- preserves _ (try_catch _ _) => apply preserves_try_catch
  | |- preserves _ (for_of _ _) => apply preserves_for_of; intros ?
  | |- preserves _ (on_socket _ _) => apply preserves_on_socket
  | |- preserves _ (on_metadata _ _) => apply preserves_on_metadata
  | |- preserves _ (modify (Map_set _ _)) => apply preserves_set_entry
  | |- preserves _ (modify (Map_delete _)) => apply preserves_delete_entry
  | |- preserves _ (log _) => by apply preserves_same
  | |- preserves _ (sendMessage _) => by apply preserves_same
  | |- preserves _ (gets _) => by apply preserves_pure
  | |- preserves _ skip => by apply preserves_pure
  | |- preserves _ (eval ?o) => apply preserves_pure; by destruct o
  | |- preserves _ (template ?vs) =>
      apply preserves_pure; unfold template; by destruct (forallb printable vs)
  | |- preserves _ (match ?x with _ => _ end) => destruct x
  end.

Section Invariant.

Variable JSON_parse : string → option value.

Lemma preserves_on_message clientId clientIP text now :
  preserves (registry_ok (Some clientId))
    (on_message JSON_parse clientId clientIP text now).
Proof. unfold on_message, message_body. repeat preserves_step. Qed.

Lemma preserves_emit_close known clientId :
  preserves (registry_ok known) (emit_close clientId).
Proof. unfold emit_close, on_close. repeat preserves_step. Qed.

Lemma preserves_broadcast known frame : preserves (registry_ok known) (broadcast frame).
Proof. unfold broadcast. repeat preserves_step. Qed.

Lemma preserves_deliver known clientID command :
  preserves (registry_ok known) (deliver clientID command).
Proof. unfold deliver. repeat preserves_step. Qed.

Lemma preserves_sweep_tick known now : preserves (registry_ok known) (sweep_tick now).
Proof. unfold sweep_tick. repeat preserves_step. Qed.

Lemma preserves_telegram_handler known allowed event :
  preserves (registry_ok known) (telegram_handler allowed event).
Proof.
  unfold telegram_handler. repeat preserves_step;
    first [apply preserves_deliver | apply preserves_broadcast].
Qed.

Lemma preserves_on_connection clientId remoteAddress now :
  preserves (registry_ok None) (on_connection clientId remoteAddress now).
Proof.
  intros st [Hwf _].
  destruct (on_connection_spec clientId remoteAddress now st) as (st' & -> & Hc & Hs & _).
  simpl. split; [|done].
  intros k cd. rewrite Hc, Hs. intros Hk.
  apply lookup_insert_Some in Hk as [[<- <-]|[Hne Hk]]; simpl.
  - by rewrite lookup_insert_eq.
  - rewrite lookup_insert_ne by done. by apply Hwf in Hk.
Qed.

Lemma registry_ok_wf known st : registry_ok known st → wf st.
Proof. by intros [? _]. Qed.

(** An event of a connection: its handler runs knowing the connection. *)
Lemma preserves_of_connection clientId handler :
  (∀ c, preserves (registry_ok (Some clientId)) (handler c)) →
  preserves (registry_ok None) (of_connection clientId handler).
Proof.
  intros Hh st [Hwf _]. unfold of_connection, mbind, M_bind, bind, gets.
  destruct (sockets st !! clientId) as [c|] eqn:Hc; [|done].
  split; [|done]. eapply registry_ok_wf, Hh.
  split; [done|]. intros id [= <-]. eauto.
Qed.

(** Every turn of the event loop keeps the registry well formed. *)
Lemma preserves_dispatch e : preserves (registry_ok None) (dispatch JSON_parse e).
Proof.
  destruct e; simpl.
  - repeat preserves_step. apply preserves_on_connection.
  - apply preserves_of_connection. intros c. apply preserves_on_message.
  - apply preserves_of_connection. intros c. apply preserves_emit_close.
  - apply preserves_of_connection. intros c. unfold emit_error, on_error.
    repeat preserves_step.
  - apply preserves_of_connection. intros c. unfold heartbeat. preserves_step.
  - apply preserves_broadcast.
  - apply preserves_sweep_tick.
  - by apply preserves_same.
  - by apply preserves_same.
  - repeat preserves_step. apply preserves_telegram_handler.
Qed.

Lemma wf_initial : wf initial.
Proof. apply map_Forall_empty. Qed.

(** Every state the server reaches is well formed, also the one in which an
    uncaught exception ends it. *)
Lemma wf_reachable events : wf (exec (run JSON_parse events) initial).
Proof.
  apply (registry_ok_wf None).
  apply (preserves_for_of (registry_ok None) events (dispatch JSON_parse)).
  - apply preserves_dispatch.
  - split; [apply wf_initial|done].
Qed.

End Invariant.

(** * The properties on sample runs *)

Lemma two_devices_wf : wf Sample.two_devices.
Proof. apply wf_reachable. Qed.

Lemma b_closing_wf : wf Sample.b_closing.
Proof. apply wf_reachable. Qed.

Lemma two_devices_printable : printable_registry Sample.two_devices.
Proof. apply (bool_decide_unpack _). vm_compute. reflexivity. Qed.

Lemma b_closing_printable : printable_registry Sample.b_closing.
Proof. apply (bool_decide_unpack _). vm_compute. reflexivity. Qed.

(** C6 on a sample: A sends text that is no JSON. *)
Lemma malformed_message_witness :
  let st' := exec (on_message Sample.parse "A" (VString "10.0.0.1") Sample.garbage_text 5000)
                  Sample.two_devices in
  completes (on_message Sample.parse "A" (VString "10.0.0.1") Sample.garbage_text 5000)
            Sample.two_devices
  ∧ clients st' = clients Sample.two_devices
  ∧ sockets st' = sockets Sample.two_devices
  ∧ operator st' = operator Sample.two_devices
  ∧ console st' = console Sample.two_devices
                    ++ [LogMessageFrom "A" Sample.garbage_text; LogInvalidJSON "A"].
Proof.
  apply (malformed_message_discarded Sample.parse "A" (VString "10.0.0.1")
           Sample.garbage_text 5000 Sample.two_devices).
  reflexivity.
Defined.

(** C9 on a sample: A sends [{"type":"unknown"}]. *)
Lemma unknown_type_witness :
  let st' := exec (on_message Sample.parse "A" (VString "10.0.0.1") Sample.unknown_text 5000)
                  Sample.two_devices in
  completes (on_message Sample.parse "A" (VString "10.0.0.1") Sample.unknown_text 5000)
            Sample.two_devices
  ∧ clients st' = clients Sample.two_devices
  ∧ sockets st' = sockets Sample.two_devices
  ∧ socket_of st' "A" = socket_of Sample.two_devices "A"
  ∧ operator st' = operator Sample.two_devices.
Proof.
  apply (unknown_type_changes_nothing Sample.parse "A" (VString "10.0.0.1")
           Sample.unknown_text 5000 Sample.two_devices
           (VObject [("type", VString "unknown")]) (VString "unknown"));
    reflexivity.
Defined.

(** C4 on a sample: A sends a heartbeat at 5 s. *)
Lemma heartbeat_witness :
  clients (exec (on_message Sample.parse "A" (VString "10.0.0.1") Sample.heartbeat_text 5000)
                Sample.two_devices) !! "A"
  = Some (Sample.entry "A" "10.0.0.1" 5000).
Proof.
  destruct (heartbeat_touches_lastSeen_only Sample.parse "A" (VString "10.0.0.1")
              Sample.heartbeat_text 5000 Sample.two_devices
              (VObject [("type", VString "heartbeat")]) (Sample.entry "A" "10.0.0.1" 0))
    as [H _]; [reflexivity..|].
  exact H.
Defined.

(** C5: a message of an unknown type and a malformed one, received at 5 s,
    leave the [lastSeen] of A at 0. *)
Lemma unknown_message_keeps_lastSeen :
  (λ e, lastSeen (metadata e)) <$>
    clients (exec (on_message Sample.parse "A" (VString "10.0.0.1") Sample.unknown_text 5000)
                  Sample.two_devices) !! "A" = Some 0
  ∧ (λ e, lastSeen (metadata e)) <$>
      clients (exec (on_message Sample.parse "A" (VString "10.0.0.1") Sample.garbage_text 5000)
                    Sample.two_devices) !! "A" = Some 0.
Proof. split; reflexivity. Qed.

(** C5 as amended, on a sample: a connect message at 5 s. *)
Lemma lastSeen_witness :
  (λ e, lastSeen (metadata e)) <$>
    clients (exec (on_message Sample.parse "A" (VString "10.0.0.1") Sample.connect_text 5000)
                  Sample.two_devices) !! "A" = Some 5000.
Proof.
  apply (lastSeen_after_message Sample.parse "A" (VString "10.0.0.1")
           Sample.connect_text 5000 Sample.two_devices (Sample.entry "A" "10.0.0.1" 0)).
  reflexivity.
Defined.

(** C8 on a sample: a message from chat 99, which is no target. *)
Lemma unlisted_chat_witness :
  telegram_handler Sample.allowed (Some (Sample.from_stranger "esp32:A:reboot"))
    Sample.two_devices = (Normal tt, Sample.two_devices)
  ∧ run Sample.parse [NewMessage (Some (Sample.from_stranger "esp32:A:reboot")); ProbeTimer]
        Sample.two_devices
    = run Sample.parse [ProbeTimer] Sample.two_devices.
Proof.
  apply (unlisted_chat_ignored Sample.allowed Sample.parse
           (Sample.from_stranger "esp32:A:reboot") Sample.two_devices [ProbeTimer]).
  - intros chat [= <-]. apply (bool_decide_unpack _). vm_compute. reflexivity.
  - reflexivity.
Defined.

(** C3 on a sample: while B is closing, member 1001 of chat 42 writes
    [hello], and so does a member whose id the event does not carry. *)
Lemma relay_witness :
  let st1 := exec (telegram_handler Sample.allowed
                     (Some (Sample.from_member (Some "1001") "hello"))) Sample.b_closing in
  let st2 := exec (telegram_handler Sample.allowed
                     (Some (Sample.from_member None "hello"))) Sample.b_closing in
  (sent <$> socket_of st1 "A" = Some [Connected "A"; Relay "42" "1001" "hello"]
   ∧ sent <$> socket_of st1 "B" = Some [Connected "B"])
  ∧ (sent <$> socket_of st2 "A" = Some [Connected "A"; Relay "42" "unknown" "hello"]
     ∧ sent <$> socket_of st2 "B" = Some [Connected "B"]).
Proof.
  split.
  - destruct (relay_reaches_open_connections Sample.allowed
                (Sample.from_member (Some "1001") "hello") "hello" "42" Sample.b_closing)
      as (_ & _ & H).
    + apply b_closing_wf.
    + reflexivity.
    + discriminate.
    + reflexivity.
    + apply (bool_decide_unpack _). vm_compute. reflexivity.
    + left. vm_compute. lia.
    + cbv zeta. rewrite !H. split; reflexivity.
  - destruct (relay_reaches_open_connections Sample.allowed
                (Sample.from_member None "hello") "hello" "42" Sample.b_closing)
      as (_ & _ & H).
    + apply b_closing_wf.
    + reflexivity.
    + discriminate.
    + reflexivity.
    + apply (bool_decide_unpack _). vm_compute. reflexivity.
    + left. vm_compute. lia.
    + cbv zeta. rewrite !H. split; reflexivity.
Defined.

(** C2 on a sample: the operator writes [ESP32:A:reboot:now] while B is
    closing, and [esp32:B:reboot]. *)
Lemma command_witness :
  let st' := exec (telegram_handler Sample.allowed
                     (Some (Sample.from_operator "ESP32:A:reboot:now")))
                  Sample.b_closing in
  sent <$> socket_of st' "A" = Some [Connected "A"; Direct "A" "reboot:now"]
  ∧ sent <$> socket_of st' "B" = Some [Connected "B"].
Proof.
  destruct (command_reaches_its_target Sample.allowed
              (Sample.from_operator "ESP32:A:reboot:now") "ESP32" "A" "reboot:now" "42"
              Sample.b_closing)
    as (_ & _ & H).
  - apply b_closing_wf.
  - reflexivity.
  - reflexivity.
  - reflexivity.
  - reflexivity.
  - reflexivity.
  - apply (bool_decide_unpack _). vm_compute. reflexivity.
  - cbv zeta. rewrite !H. split; reflexivity.
Defined.

(** C7: when the [error] event of A has been handled, the entry of A is
    still in the registry; its socket is closing. *)
Lemma error_event_keeps_entry :
  let st1 := exec (dispatch Sample.parse (SocketError "A" "read ECONNRESET"))
                  Sample.two_devices in
  clients st1 !! "A" = Some (Sample.entry "A" "10.0.0.1" 0)
  ∧ readyState <$> socket_of st1 "A" = Some CLOSING.
Proof. split; reflexivity. Qed.

(** C7 as amended, on a sample: A closes; A fails and then closes. *)
Lemma close_error_witness :
  let st1 := exec (emit_error "A" "read ECONNRESET") Sample.two_devices in
  clients (exec (emit_close "A") Sample.two_devices) !! "A" = None
  ∧ clients st1 = clients Sample.two_devices
  ∧ console st1 = console Sample.two_devices ++ [LogError "A" "read ECONNRESET"]
  ∧ clients (exec (emit_close "A") st1) !! "A" = None.
Proof.
  destruct (close_removes_error_leaves_to_close "A" "read ECONNRESET" Sample.two_devices)
    as [(_ & _ & Hclose) [(_ & Herror & _ & _ & Hlog) (_ & _ & Hlater)]].
  - intros cd Hcd. apply two_devices_printable in Hcd. exact Hcd.
  - cbv zeta. split_and!; [exact Hclose|exact Herror|exact Hlog|exact Hlater].
Defined.

(** C1: when the sweep at 30.001 s returns, the entry of A, last seen at 0,
    is still in the registry; its socket is closing. *)
Lemma sweep_keeps_stale_entry :
  clients (exec (sweep_tick 30001) Sample.two_devices) !! "A"
    = Some (Sample.entry "A" "10.0.0.1" 0)
  ∧ readyState <$> socket_of (exec (sweep_tick 30001) Sample.two_devices) "A"
    = Some CLOSING.
Proof. split; reflexivity. Qed.

(** C1 as amended, on a sample. *)
Lemma sweep_witness :
  let st1 := exec (sweep_tick 30001) Sample.two_devices in
  let st2 := exec (emit_close "A") st1 in
  ∃ w, socket_of Sample.two_devices "A" = Some w
    ∧ completes (sweep_tick 30001) Sample.two_devices
    ∧ socket_of st1 "A" = Some (terminate w)
    ∧ is_open (terminate w) = false
    ∧ clients st1 = clients Sample.two_devices
    ∧ completes (emit_close "A") st1
    ∧ clients st2 !! "A" = None
    ∧ socket_of st2 "A" = Some (closed (terminate w)).
Proof.
  apply (sweep_terminates_close_removes 30001 "A" (Sample.entry "A" "10.0.0.1" 0)
           Sample.two_devices).
  - apply two_devices_wf.
  - apply two_devices_printable.
  - reflexivity.
  - reflexivity.
Defined.

(** C10, where the code departs from it. A has registered with an address
    that has no string conversion, and C, accepted at 2 s, only answers the
    probe.  The sweep at 40 s throws in the log line of A, the first stale
    entry, and nothing catches the exception: C, last seen 38 s before, still
    has its entry, and its socket is open and was never terminated. *)
Lemma poisoned_entry_shields_quiet_device :
  let st := exec (run Sample.parse Sample.c_behind_poisoned) initial in
  (run Sample.parse Sample.c_behind_poisoned initial).1 = Throw
  ∧ stale 40000 (Sample.entry "C" "10.0.0.3" 2000) = true
  ∧ clients st !! "C" = Some (Sample.entry "C" "10.0.0.3" 2000)
  ∧ socket_of st "C" = Some {| readyState := OPEN; isAlive := true;
                                sent := [Connected "C"; CommandPing];
                                terminations := 0 |}.
Proof. split_and!; reflexivity. Qed.

(** * Further properties of the handlers *)

(** ** The registry and the sockets it names *)

(** X1. In every state the server reaches, whatever the events and also when
    an uncaught exception ends the run, every registry entry names the socket
    of the connection it is filed under, and that connection has been
    accepted. *)
Theorem registry_names_own_sockets (JSON_parse : string → option value) events k cd :
  clients (exec (run JSON_parse events) initial) !! k = Some cd →
  ws cd = k ∧ is_Some (sockets (exec (run JSON_parse events) initial) !! k).
Proof. intros Hk. by apply (wf_reachable JSON_parse events k cd). Qed.

(** ** Accepting a connection *)

Lemma wf_fresh st clientId : wf st → sockets st !! clientId = None → clients st !! clientId = None.
Proof.
  intros Hwf Hfresh. destruct (clients st !! clientId) as [cd|] eqn:Hcd; [|done].
  apply Hwf in Hcd as [_ [c Hc]]. congruence.
Qed.

(** X3. Accepting a connection with a fresh id adds one entry, with the
    transport address, the waiting label and the time of acceptance, and gives
    the connection an open socket whose only frame so far tells the id; every
    other entry and socket is as before, and the registry grows by one. *)
Theorem connection_registered clientId remoteAddress now st :
  wf st →
  sockets st !! clientId = None →
  let st' := exec (on_connection clientId remoteAddress now) st in
  completes (on_connection clientId remoteAddress now) st
  ∧ clients st' !! clientId =
      Some {| ws := clientId;
              metadata := {| ip := from_option VString VUndefined remoteAddress;
                             location_device := VString "🔄 Waiting...";
                             lastSeen := now |} |}
  ∧ socket_of st' clientId =
      Some {| readyState := OPEN; isAlive := true; sent := [Connected clientId];
              terminations := 0 |}
  ∧ (∀ other, other ≠ clientId →
       clients st' !! other = clients st !! other
       ∧ sockets st' !! other = sockets st !! other)
  ∧ size (clients st') = S (size (clients st))
  ∧ operator st' = operator st.
Proof.
  intros Hwf Hfresh.
  destruct (on_connection_spec clientId remoteAddress now st) as (st' & E & Hc & Hs & Ho).
  unfold exec, completes, socket_of. rewrite E. cbn [fst snd]. rewrite Hc, Hs.
  split_and!; try done.
  - by rewrite lookup_insert_eq.
  - by rewrite lookup_insert_eq.
  - intros other Hne. by rewrite !lookup_insert_ne.
  - apply map_size_insert_None. by apply wf_fresh.
Qed.

(** X4. Accepting a connection and then closing it gives back the registry
    there was before: the close handler completes and removes exactly the
    entry the acceptance added. *)
Theorem accept_then_close_restores clientId remoteAddress now st :
  wf st →
  sockets st !! clientId = None →
  let st1 := exec (on_connection clientId remoteAddress now) st in
  completes (emit_close clientId) st1
  ∧ clients (exec (emit_close clientId) st1) = clients st
  ∧ readyState <$> socket_of (exec (emit_close clientId) st1) clientId = Some CLOSED.
Proof.
  intros Hwf Hfresh.
  destruct (on_connection_spec clientId remoteAddress now st) as (st1 & E1 & Hc1 & Hs1 & _).
  destruct (emit_close_spec clientId st1) as (st2 & E2 & Hc2 & Hs2 & _).
  { rewrite Hc1, lookup_insert_eq. intros cd [= <-]. simpl. by destruct remoteAddress. }
  unfold exec, completes, socket_of. rewrite E1. cbn [fst snd]. rewrite E2. cbn [fst snd].
  rewrite Hc2, Hc1, Hs2, Hs1. split_and!; try done.
  - apply delete_insert_id. by apply wf_fresh.
  - by rewrite lookup_alter_eq, lookup_insert_eq.
Qed.

Section Registration.

Variable JSON_parse : string → option value.

(** A message of a connection that has no entry changes nothing but the
    console. *)
Lemma on_message_unregistered clientId clientIP text now st :
  clients st !! clientId = None →
  ∃ lines,
    on_message JSON_parse clientId clientIP text now st =
      (Normal tt,
       {| clients := clients st; inserted := inserted st; sockets := sockets st;
          telegramSelfUser := telegramSelfUser st;
          allowedChatIds := allowedChatIds st; operator := operator st;
          console := console st ++ LogMessageFrom clientId text :: lines |}).
Proof.
  intros Hcd. unfold on_message, message_body. run_M. simpl.
  destruct (JSON_parse text) as [data|]; simpl.
  - rewrite Hcd. exists []. reflexivity.
  - eexists. rewrite <- app_assoc. reflexivity.
Qed.

(** X5. Whatever a device sends, the message handler completes (every
    exception is caught), touches no socket and no entry but that of the sender,
    and neither adds nor removes a key of the registry: a connection without an
    entry does not get one back by sending a message. *)
Theorem message_confined_to_sender clientId clientIP text now st :
  let st' := exec (on_message JSON_parse clientId clientIP text now) st in
  completes (on_message JSON_parse clientId clientIP text now) st
  ∧ sockets st' = sockets st
  ∧ dom (clients st') = dom (clients st)
  ∧ ∀ other, other ≠ clientId → clients st' !! other = clients st !! other.
Proof.
  destruct (clients st !! clientId) as [cd|] eqn:Hcd.
  2: { destruct (on_message_unregistered clientId clientIP text now st Hcd) as [lines E].
       unfold exec, completes. by rewrite E. }
  destruct (recognised JSON_parse text) eqn:Hrec.
  2: { destruct (on_message_unrecognised JSON_parse clientId clientIP text now st Hrec)
         as [lines E].
       unfold exec, completes. by rewrite E. }
  unfold recognised in Hrec.
  destruct (JSON_parse text) as [data|] eqn:Hparse; [|done].
  destruct (get data "type") as [type|] eqn:Htype; [|done].
  apply orb_true_iff in Hrec as [Hc|Hh].
  - destruct (on_message_connect JSON_parse clientId clientIP text now st data type cd)
      as (notes & lines & E); try done.
    unfold exec, completes. rewrite E. simpl. split_and!; try done.
    + apply dom_insert_lookup_L. eauto.
    + intros other Hne. by rewrite lookup_insert_ne.
  - destruct (on_message_heartbeat JSON_parse clientId clientIP text now st data type cd)
      as (lines & E); try done.
    unfold exec, completes. rewrite E. simpl. split_and!; try done.
    + apply dom_alter_L.
    + intros other Hne. by rewrite lookup_alter_ne.
Qed.

(** The state after a connect message of a registered connection, in full. *)
Lemma on_message_connect_exact clientId clientIP text now st data cd :
  JSON_parse text = Some data →
  get data "type" = Some (VString "connect") →
  clients st !! clientId = Some cd →
  let address := or_else (default VUndefined (get data "ip")) clientIP in
  let label := or_else (default VUndefined (get data "location_device")) (VString "Unknown") in
  let shown := printable label && printable address in
  on_message JSON_parse clientId clientIP text now st =
    (Normal tt,
     {| clients :=
          <[clientId := {| ws := clientId;
                           metadata := {| ip := address; location_device := label;
                                          lastSeen := now |} |}]> (clients st);
        inserted := inserted st;
        sockets := sockets st;
        telegramSelfUser := telegramSelfUser st;
        allowedChatIds := allowedChatIds st;
        operator :=
          operator st ++
            (if telegramSelfUser st && shown
             then [ClientRegistered label address (size (clients st))] else []);
        console :=
          console st ++
            [LogMessageFrom clientId text;
             if shown then LogRegistered label address (size (clients st))
             else LogInvalidJSON clientId] |}).
Proof.
  intros Hparse Htype Hcd.
  destruct (get_string_object data "ip" _ Htype) as [vip Hip].
  destruct (get_string_object data "location_device" _ Htype) as [vloc Hloc].
  unfold on_message, message_body. run_M. simpl.
  rewrite Hparse. simpl. rewrite Hcd. simpl. rewrite Htype. simpl.
  rewrite Hloc, Hip. simpl. rewrite andb_true_r.
  unfold Map_set. simpl.
  rewrite !bool_decide_eq_true_2 by (rewrite !lookup_alter_eq, Hcd; simpl; eauto).
  rewrite !insert_alter_eq.
  rewrite map_size_insert_Some by eauto.
  destruct (printable (or_else vloc _) && printable (or_else vip _)); simpl.
  - destruct (telegramSelfUser st); simpl; rewrite ?insert_alter_eq.
    + by rewrite <- !app_assoc.
    + by rewrite app_nil_r, <- !app_assoc.
  - rewrite andb_false_r, app_nil_r, <- !app_assoc. by rewrite ?insert_alter_eq.
Qed.

(** X6. A connect message of a registered connection replaces the address
    and the label of its entry and sets [lastSeen] to the time of receipt.  The
    address is [data.ip] when that is truthy and the transport address the
    connection was accepted with otherwise; the label is [data.location_device]
    when truthy and [Unknown] otherwise.  What the entry held before plays no
    part, and the size of the registry stays. *)
Theorem connect_replaces_metadata clientId clientIP text now st data cd :
  JSON_parse text = Some data →
  get data "type" = Some (VString "connect") →
  clients st !! clientId = Some cd →
  let st' := exec (on_message JSON_parse clientId clientIP text now) st in
  let given_ip := default VUndefined (get data "ip") in
  let given_label := default VUndefined (get data "location_device") in
  clients st' !! clientId =
    Some {| ws := clientId;
            metadata :=
              {| ip := if truthy given_ip then given_ip else clientIP;
                 location_device :=
                   if truthy given_label then given_label else VString "Unknown";
                 lastSeen := now |} |}
  ∧ size (clients st') = size (clients st).
Proof.
  intros Hparse Htype Hcd. cbv zeta. unfold exec.
  rewrite (on_message_connect_exact clientId clientIP text now st data cd) by done.
  simpl. split; [by rewrite lookup_insert_eq|].
  apply map_size_insert_Some. eauto.
Qed.

(** X7. A connect message of a registered connection sends the operator one
    notification, with the new label, the new address and the size of the
    registry, exactly when [telegramSelfUser] is set and both values have a
    string conversion; otherwise it sends none.  When one of the values has no
    string conversion, the console gets the line for invalid JSON although the
    entry has been updated. *)
Theorem connect_notifies_operator clientId clientIP text now st data cd :
  JSON_parse text = Some data →
  get data "type" = Some (VString "connect") →
  clients st !! clientId = Some cd →
  let st' := exec (on_message JSON_parse clientId clientIP text now) st in
  let address := or_else (default VUndefined (get data "ip")) clientIP in
  let label := or_else (default VUndefined (get data "location_device")) (VString "Unknown") in
  operator st' =
    operator st ++
      (if telegramSelfUser st && (printable label && printable address)
       then [ClientRegistered label address (size (clients st))] else [])
  ∧ console st' =
      console st ++
        [LogMessageFrom clientId text;
         if printable label && printable address
         then LogRegistered label address (size (clients st))
         else LogInvalidJSON clientId].
Proof.
  intros Hparse Htype Hcd. cbv zeta. unfold exec.
  by rewrite (on_message_connect_exact clientId clientIP text now st data cd).
Qed.

End Registration.

(** ** The timers *)

(** X8. The sweep terminates the stale and nothing else: it leaves the
    registry and the operator alone, calls [terminate] once on the socket of
    every entry last seen more than 30 seconds ago, and leaves the socket of an
    entry seen 30 seconds ago or less, and of a connection without an entry,
    exactly as it was. *)
Theorem sweep_spares_the_fresh now st :
  wf st →
  printable_registry st →
  let st' := exec (sweep_tick now) st in
  completes (sweep_tick now) st
  ∧ clients st' = clients st
  ∧ operator st' = operator st
  ∧ (∀ k cd, clients st !! k = Some cd → now - lastSeen (metadata cd) > 30000 →
       socket_of st' k = terminate <$> socket_of st k)
  ∧ (∀ k cd, clients st !! k = Some cd → now - lastSeen (metadata cd) ≤ 30000 →
       socket_of st' k = socket_of st k)
  ∧ (∀ k, clients st !! k = None → socket_of st' k = socket_of st k).
Proof.
  intros Hwf Hpr.
  destruct (sweep_tick_spec now st Hwf Hpr) as (st' & E & (Hc & _ & _ & Ho) & S).
  unfold exec, completes, socket_of. rewrite E. cbn [fst snd].
  split_and!; try done.
  - intros k cd Hcd Hold. rewrite S, Hcd. unfold stale.
    rewrite bool_decide_eq_true_2 by done. by destruct (sockets st !! k).
  - intros k cd Hcd Hnew. rewrite S, Hcd. unfold stale.
    rewrite bool_decide_eq_false_2 by lia. by destruct (sockets st !! k).
  - intros k Hk. by rewrite S, Hk.
Qed.

(** X11. A probe tick hands the ping command to every open socket that has
    a registry entry, once, and to no other socket; the registry, so every
    [lastSeen] too, and the operator are left alone. *)
Theorem probe_pings_open_connections st :
  wf st →
  let st' := exec probe_tick st in
  completes probe_tick st
  ∧ clients st' = clients st
  ∧ operator st' = operator st
  ∧ ∀ k, socket_of st' k =
      (λ w, if bool_decide (is_Some (clients st !! k)) && is_open w
            then push CommandPing w else w) <$> socket_of st k.
Proof.
  intros Hwf. unfold probe_tick.
  destruct (broadcast_spec CommandPing st Hwf) as (st' & E & (Hc & _ & _ & Ho) & S).
  unfold exec, completes, socket_of. rewrite E. cbn [fst snd].
  split_and!; try done.
  intros k. rewrite S.
  destruct (clients st !! k) as [cd|]; simpl.
  - destruct (sockets st !! k) as [c|]; simpl; [|done].
    unfold send. by destruct (is_open (socket c)).
  - by destruct (sockets st !! k).
Qed.

(** ** An address without a string conversion *)

Lemma unprintable_truthy v : printable v = false → truthy v = true.
Proof. by destruct v. Qed.

(** X2. When the address of an entry has no string conversion (a connect
    message may store such an object), the [close] event of its connection
    throws in the log line of the handler, before [clients.delete]: nothing
    catches the exception and the entry stays in the registry. *)
Theorem unprintable_address_blocks_close clientId cd st :
  clients st !! clientId = Some cd →
  printable (ip (metadata cd)) = false →
  (emit_close clientId st).1 = Throw
  ∧ clients (exec (emit_close clientId) st) = clients st
  ∧ socket_of (exec (emit_close clientId) st) clientId = closed <$> socket_of st clientId.
Proof.
  intros Hcd Hbad. unfold emit_close, on_close, socket_of. run_M. simpl.
  rewrite Hcd. simpl. unfold or_else.
  rewrite (unprintable_truthy _ Hbad), Hbad. simpl.
  split_and!; try done.
  rewrite lookup_alter_eq. by destruct (sockets st !! clientId).
Qed.

(** A loop throws when one of its iterations throws in every state. *)
Lemma for_of_throws {A} (xs : list A) (body : A → M unit) x :
  x ∈ xs → (∀ st, (body x st).1 = Throw) → ∀ st, (for_of xs body st).1 = Throw.
Proof.
  intros Hin Hx. induction xs as [|y ys IH]; intros st; [by apply not_elem_of_nil in Hin|].
  simpl. unfold bind.
  destruct (body y st) as [[[]|] st1] eqn:E; [|done].
  apply elem_of_cons in Hin as [->|Hin].
  - specialize (Hx st). by rewrite E in Hx.
  - by apply IH.
Qed.

Lemma preserves_modify P (f : State → State) :
  (∀ st, P st → P (f st)) → preserves P (modify f).
Proof. intros Hf st HP. by apply Hf. Qed.

(** The sweep never changes the registry or writes to the operator, also
    when it throws. *)
Lemma sweep_tick_keeps_registry now st0 :
  preserves (λ st, clients st = clients st0 ∧ operator st = operator st0) (sweep_tick now).
Proof.
  unfold sweep_tick. apply preserves_bind; [by apply preserves_pure|intros es].
  apply preserves_for_of. intros e. destruct (stale now e.2); [|by apply preserves_pure].
  apply preserves_bind; [|intros _; apply preserves_bind; [|intros _]].
  - apply preserves_pure. intros st. unfold template. by destruct (forallb _ _).
  - by apply preserves_modify.
  - by apply preserves_modify.
Qed.

(** X9. When a stale entry has an address without a string conversion, the
    sweep throws in its log line and nothing catches the exception; the
    registry is as before, so no stale entry has been removed. *)
Theorem unprintable_address_stops_sweep now clientId cd st :
  clients st !! clientId = Some cd →
  now - lastSeen (metadata cd) > 30000 →
  printable (ip (metadata cd)) = false →
  (sweep_tick now st).1 = Throw
  ∧ clients (exec (sweep_tick now) st) = clients st
  ∧ operator (exec (sweep_tick now) st) = operator st.
Proof.
  intros Hcd Hold Hbad. split; [|by apply (sweep_tick_keeps_registry now st st)].
  unfold sweep_tick, mbind, M_bind, bind, gets. cbn beta iota.
  apply (for_of_throws _ _ (clientId, cd)).
  - by apply elem_of_entries.
  - intros st1. cbn [fst snd]. unfold stale.
    rewrite bool_decide_eq_true_2 by done.
    unfold template, mbind, M_bind, bind. simpl. by rewrite Hbad.
Qed.

(** ** What an operator message can do *)

Lemma with_more_nil w : with_more [] w = w.
Proof. destruct w. unfold with_more. simpl. by rewrite app_nil_r. Qed.

Lemma send_with_more frame w :
  ∃ frames, (length frames ≤ 1)%nat ∧ send frame w = with_more frames w.
Proof.
  unfold send. destruct (is_open w).
  - exists [frame]. split; [simpl; lia|done].
  - exists []. split; [simpl; lia|by rewrite with_more_nil].
Qed.

(** X10. Whatever arrives from Telegram, and from whatever chat, the handler
    completes, leaves the registry as it is, sends the operator nothing (a
    command for an unknown or closed connection is dropped without a word) and
    never closes or terminates a socket: all it does to a socket is send it at
    most one frame more. *)
Theorem operator_message_only_sends (allowed : gset string) (event : option TgMessage) st :
  wf st →
  let st' := exec (telegram_handler allowed event) st in
  completes (telegram_handler allowed event) st
  ∧ clients st' = clients st
  ∧ operator st' = operator st
  ∧ ∀ k, ∃ frames, (length frames ≤ 1)%nat
         ∧ socket_of st' k = with_more frames <$> socket_of st k.
Proof.
  intros Hwf.
  assert (∀ k, ∃ frames, (length frames ≤ 1)%nat
            ∧ socket_of st k = with_more frames <$> socket_of st k) as Hsame.
  { intros k. exists []. split; [simpl; lia|].
    unfold socket_of. destruct (sockets st !! k); simpl; [|done].
    by rewrite with_more_nil. }
  unfold telegram_handler.
  destruct event as [msg|]; [|done].
  destruct (message msg) as [text|]; [|done].
  destruct (String.eqb text ""); [done|].
  destruct (chatId msg) as [chat|]; [|done].
  destruct (negb _); [done|].
  run_M. cbn beta iota.
  set (st0 := {| clients := clients st; inserted := inserted st; sockets := sockets st;
                 telegramSelfUser := telegramSelfUser st;
                 allowedChatIds := allowedChatIds st; operator := operator st;
                 console := console st ++ [LogTelegram chat (sender_of msg) text] |}).
  assert (wf st0) as Hwf0 by done.
  destruct (addressed _).
  - destruct (deliver_spec (nth 1 (Str.split ":" text) "")
                (Str.join ":" (drop 2 (Str.split ":" text))) st0 Hwf0)
      as (st' & E & (Hc & _ & _ & Ho) & S).
    rewrite E. cbn [fst snd]. split_and!; try done.
    intros k. unfold socket_of. rewrite S. simpl.
    destruct (clients st !! k); [destruct (String.eqb k _)|];
      destruct (sockets st !! k) as [sk|]; simpl;
      try (exists []; split; [simpl; lia|by rewrite ?with_more_nil]).
    destruct (send_with_more (Direct (nth 1 (Str.split ":" text) "")
                (Str.join ":" (drop 2 (Str.split ":" text)))) (socket sk))
      as (frames & Hlen & ->).
    by exists frames.
  - destruct (broadcast_spec (Relay chat (sender_of msg) text) st0 Hwf0)
      as (st' & E & (Hc & _ & _ & Ho) & S).
    rewrite E. cbn [fst snd]. split_and!; try done.
    intros k. unfold socket_of. rewrite S. simpl.
    destruct (clients st !! k);
      destruct (sockets st !! k) as [sk|]; simpl;
      try (exists []; split; [simpl; lia|by rewrite ?with_more_nil]).
    destruct (send_with_more (Relay chat (sender_of msg) text) (socket sk))
      as (frames & Hlen & ->).
    by exists frames.
Qed.

(** ** The status route *)

(** X12. [GET /esp32-clients] lists the registry and nothing else: a row is
    in the answer exactly when its id has an entry, and then it carries the
    address, the label and the [lastSeen] of that entry and says [connected]
    exactly when the socket of the connection is open.  No id is listed twice
    and there are as many rows as entries. *)
Theorem status_lists_the_registry st :
  wf st →
  (∀ row, row ∈ esp32_clients st ↔
     ∃ cd c, clients st !! row_clientId row = Some cd
       ∧ sockets st !! row_clientId row = Some c
       ∧ row_connected row = is_open (socket c)
       ∧ row_ip row = ip (metadata cd)
       ∧ row_location_device row = location_device (metadata cd)
       ∧ row_lastSeen row = lastSeen (metadata cd))
  ∧ NoDup (row_clientId <$> esp32_clients st)
  ∧ length (esp32_clients st) = size (clients st).
Proof.
  intros Hwf. unfold esp32_clients. split_and!.
  - intros row. rewrite list_elem_of_fmap. split.
    + intros ([k cd] & -> & Hin). apply elem_of_entries in Hin. simpl.
      destruct (Hwf k cd Hin) as [Hws [c Hc]]. simpl in Hws.
      exists cd, c. rewrite Hws, Hc. done.
    + intros (cd & c & Hcd & Hc & Hopen & Hip & Hloc & Hseen).
      exists (row_clientId row, cd). split.
      * destruct (Hwf _ _ Hcd) as [Hws _]. simpl. rewrite Hws, Hc. simpl.
        destruct row. simpl in *. congruence.
      * by apply elem_of_entries.
  - rewrite <- list_fmap_compose.
    apply (NoDup_fst_entries st).
  - by rewrite length_fmap, (entries_Permutation st), length_map_to_list.
Qed.

(** The sweep throws when a stale entry has an address without a string
    conversion. *)
Lemma sweep_tick_throws now clientId cd st :
  clients st !! clientId = Some cd →
  stale now cd = true →
  printable (ip (metadata cd)) = false →
  (sweep_tick now st).1 = Throw.
Proof.
  intros Hcd Hold Hbad.
  unfold sweep_tick, mbind, M_bind, bind, gets. cbn beta iota.
  apply (for_of_throws _ _ (clientId, cd)).
  - by apply elem_of_entries.
  - intros st1. cbn [fst snd]. rewrite Hold.
    unfold template, mbind, M_bind, bind. simpl. by rewrite Hbad.
Qed.

(** So when the sweep completes, the address of every stale entry has one. *)
Lemma sweep_completes_printable now st k cd :
  completes (sweep_tick now) st →
  clients st !! k = Some cd →
  stale now cd = true →
  printable (ip (metadata cd)) = true.
Proof.
  intros Hdone Hcd Hold. destruct (printable (ip (metadata cd))) eqn:Hp; [done|].
  unfold completes in Hdone.
  by rewrite (sweep_tick_throws now k cd st Hcd Hold Hp) in Hdone.
Qed.

(** A sweep that completes has terminated the stale and nothing else. *)
Lemma sweep_tick_completed now st :
  wf st →
  completes (sweep_tick now) st →
  ∃ st', sweep_tick now st = (Normal tt, st') ∧ same_registry st st'
    ∧ ∀ k, sockets st' !! k =
        match clients st !! k with
        | Some cd => (if stale now cd then call terminate else id) <$> sockets st !! k
        | None => sockets st !! k
        end.
Proof.
  intros Hwf Hdone.
  pose proof (λ k cd, sweep_completes_printable now st k cd Hdone) as Hpr.
  clear Hdone. unfold sweep_tick. run_M. simpl.
  edestruct (for_of_sockets (entries st)) as (st' & E & F & S); cycle 1.
  - exists st'. rewrite E. split; [done|]. split; [done|].
    intros k. rewrite S.
    by rewrite (registry_fold_lookup
      (λ e, if stale now e.2 then call terminate else id)).
  - intros [k cd] st0 Hin. simpl.
    apply elem_of_entries in Hin. specialize (Hpr k cd Hin).
    destruct (stale now cd); simpl.
    + rewrite Hpr by done. simpl.
      eexists. split; [done|]. split; [by repeat split|done].
    + exists st0. split; [done|]. split; [apply same_registry_refl|].
      symmetry. by apply alter_id.
Qed.

(** X13. After a sweep that ran to completion and before the [close] event
    is handled, the status route still lists a stale connection, as not
    connected. *)
Theorem status_shows_terminated now clientId cd st :
  wf st →
  completes (sweep_tick now) st →
  clients st !! clientId = Some cd →
  now - lastSeen (metadata cd) > 30000 →
  {| row_clientId := clientId; row_connected := false;
     row_ip := ip (metadata cd); row_location_device := location_device (metadata cd);
     row_lastSeen := lastSeen (metadata cd) |}
    ∈ esp32_clients (exec (sweep_tick now) st).
Proof.
  intros Hwf Hdone Hcd Hold.
  destruct (sweep_tick_completed now st Hwf Hdone) as (st1 & E1 & (Hc1 & _) & S1).
  destruct (Hwf _ _ Hcd) as [Hws [c Hc]].
  unfold exec. rewrite E1. cbn [fst snd].
  unfold esp32_clients. apply list_elem_of_fmap.
  exists (clientId, cd). split.
  - simpl. rewrite Hws, S1, Hcd, Hc. unfold stale.
    rewrite bool_decide_eq_true_2 by done. simpl.
    by rewrite terminate_not_open.
  - apply elem_of_entries. by rewrite Hc1.
Qed.

(** ** The targets resolved at start-up *)

(** X14. The chats the handler accepts are the configured ones and no other:
    the user [TARGET_PERSONAL_USERNAME] resolves to, when that variable is set
    and not empty, and the group [TARGET_GROUP_ID001], when the account has a
    dialog with that id.  With neither, the set is empty. *)
Theorem only_configured_targets env user_id dialogs chat :
  chat ∈ (list_to_set (target_entities env user_id dialogs) : gset string) ↔
    (personal env = true ∧ chat = user_id)
    ∨ (TARGET_GROUP_ID001 env = Some chat ∧ ∃ d, d ∈ dialogs ∧ dialog_id d = chat).
Proof.
  rewrite elem_of_list_to_set. unfold target_entities, find_group.
  rewrite elem_of_app. split.
  - intros [Hu|Hg].
    + left. destruct (personal env); [|by apply not_elem_of_nil in Hu].
      apply list_elem_of_singleton in Hu. done.
    + right. destruct (TARGET_GROUP_ID001 env) as [wanted|]; [|by apply not_elem_of_nil in Hg].
      destruct (List.find _ dialogs) as [g|] eqn:Hfind; [|by apply not_elem_of_nil in Hg].
      apply list_elem_of_singleton in Hg. subst chat.
      apply List.find_some in Hfind as [Hin Heq].
      apply String.eqb_eq in Heq. split; [by rewrite Heq|].
      exists g. split; [by apply list_elem_of_In|done].
  - intros [[Hp ->]|[Hg (d & Hd & Hid)]].
    + left. rewrite Hp. by apply list_elem_of_singleton.
    + right. rewrite Hg.
      destruct (List.find _ dialogs) as [g|] eqn:Hfind.
      * apply List.find_some in Hfind as [_ Heq]. apply String.eqb_eq in Heq.
        apply list_elem_of_singleton. done.
      * apply list_elem_of_In in Hd.
        pose proof (List.find_none _ _ Hfind d Hd) as Hno. simpl in Hno.
        apply String.eqb_neq in Hno. done.
Qed.

(** ** What holds of every socket the server ever accepted *)

Lemma every_socket_modify Q (f : State → State) :
  (∀ st, sockets (f st) = sockets st) → preserves (every_socket Q) (modify f).
Proof. intros Hf st HP k c. simpl. rewrite Hf. apply HP. Qed.

Lemma every_socket_on_socket (Q : string → WebSocket → Prop) f ref :
  (∀ k w, Q k w → Q k (f w)) → preserves (every_socket Q) (on_socket f ref).
Proof.
  intros Hf st HP k c. unfold on_socket. simpl. intros Hk.
  apply lookup_alter_Some in Hk as [(-> & c0 & Hc0 & ->)|[_ Hk]]; [|by apply HP].
  simpl. by apply Hf, (HP _ _ Hc0).
Qed.

Section EverySocket.

Variable JSON_parse : string → option value.
Variable Q : string → WebSocket → Prop.

(** [Q] holds of a socket when it is accepted and told its id, and every
    method the server calls on a socket keeps it. *)
Hypothesis Q_accepted : ∀ k, Q k (push (Connected k) (set_isAlive true accepted)).
Hypothesis Q_send : ∀ frame k w, Q k w → Q k (send frame w).
Hypothesis Q_terminate : ∀ k w, Q k w → Q k (terminate w).
Hypothesis Q_isAlive : ∀ k w, Q k w → Q k (set_isAlive true w).
Hypothesis Q_closed : ∀ k w, Q k w → Q k (closed w).
Hypothesis Q_closing : ∀ k w, Q k w → Q k (closing w).

Ltac every_socket_step :=
  lazymatch goal with
  | |- preserves _ (_ ≫= _) => apply preserves_bind; [|intros ?]
  | |- preserves _ (try_catch _ _) => apply preserves_try_catch
  | |- preserves _ (for_of _ _) => apply preserves_for_of; intros ?
  | |- preserves _ (on_socket (send _) _) => apply every_socket_on_socket, Q_send
  | |- preserves _ (on_socket terminate _) => apply every_socket_on_socket, Q_terminate
  | |- preserves _ (on_socket (set_isAlive true) _) => apply every_socket_on_socket, Q_isAlive
  | |- preserves _ (on_socket closed _) => apply every_socket_on_socket, Q_closed
  | |- preserves _ (on_socket closing _) => apply every_socket_on_socket, Q_closing
  | |- preserves _ (on_metadata _ _) => by apply every_socket_modify
  | |- preserves _ (modify _) => by apply every_socket_modify
  | |- preserves _ (log _) => by apply every_socket_modify
  | |- preserves _ (sendMessage _) => by apply every_socket_modify
  | |- preserves _ (gets _) => by apply preserves_pure
  | |- preserves _ skip => by apply preserves_pure
  | |- preserves _ (eval ?o) => apply preserves_pure; by destruct o
  | |- preserves _ (template ?vs) =>
      apply preserves_pure; unfold template; by destruct (forallb printable vs)
  | |- preserves _ (match ?x with _ => _ end) => destruct x
  end.

Lemma every_socket_on_connection clientId remoteAddress now st :
  every_socket Q st → every_socket Q (exec (on_connection clientId remoteAddress now) st).
Proof.
  intros HP.
  destruct (on_connection_spec clientId remoteAddress now st) as (st' & E & _ & Hs & _).
  unfold exec. rewrite E. cbn [fst snd]. intros k c. rewrite Hs. intros Hk.
  apply lookup_insert_Some in Hk as [[<- <-]|[_ Hk]]; [apply Q_accepted|by apply HP].
Qed.

Lemma every_socket_dispatch e : preserves (every_socket Q) (dispatch JSON_parse e).
Proof.
  destruct e; simpl;
    unfold of_connection, on_message, message_body, emit_close, on_close, emit_error,
      on_error, heartbeat, probe_tick, sweep_tick, logged_in, add_handler,
      telegram_handler, broadcast, deliver.
  - apply preserves_bind; [by apply preserves_pure|intros [c|]].
    + by apply preserves_pure.
    + intros st. apply every_socket_on_connection.
  - repeat every_socket_step.
  - repeat every_socket_step.
  - repeat every_socket_step.
  - repeat every_socket_step.
  - repeat every_socket_step.
  - repeat every_socket_step.
  - repeat every_socket_step.
  - repeat every_socket_step.
  - repeat every_socket_step.
Qed.

Lemma every_socket_reachable events :
  every_socket Q (exec (run JSON_parse events) initial).
Proof.
  apply (preserves_for_of (every_socket Q) events (dispatch JSON_parse)).
  - apply every_socket_dispatch.
  - intros k c Hk. simpl in Hk. by rewrite lookup_empty in Hk.
Qed.

End EverySocket.

Lemma send_sent frame w : ∃ more, sent (send frame w) = sent w ++ more.
Proof.
  unfold send. destruct (is_open w); [by exists [frame]|].
  exists []. by rewrite app_nil_r.
Qed.

(** X15. In every state the server reaches, the first frame sent on every
    accepted socket is the one that tells the device the id of its connection:
    no ping, command or relayed message goes out before it. *)
Theorem first_frame_tells_the_id JSON_parse events :
  ∀ k c, sockets (exec (run JSON_parse events) initial) !! k = Some c →
    ∃ rest, sent (socket c) = Connected k :: rest.
Proof.
  apply (every_socket_reachable JSON_parse
           (λ k w, ∃ rest, sent w = Connected k :: rest)); try (intros; done).
  - intros k. by exists [].
  - intros frame k w [rest Hrest]. destruct (send_sent frame w) as [more Hmore].
    exists (rest ++ more). by rewrite Hmore, Hrest.
Qed.

(** X16. In every state the server reaches, a socket on which [terminate]
    has been called is not open, so that [send] on it sends nothing: a
    connection the sweep has terminated gets no frame any more. *)
Theorem terminated_socket_stays_shut JSON_parse events k w :
  socket_of (exec (run JSON_parse events) initial) k = Some w →
  terminations w ≠ 0%nat →
  is_open w = false ∧ ∀ frame, send frame w = w.
Proof.
  intros Hw Hterm.
  assert (is_open w = false) as Hshut.
  { unfold socket_of in Hw.
    destruct (sockets (exec (run JSON_parse events) initial) !! k) as [c|] eqn:Hc;
      [|done].
    injection Hw as <-. revert Hterm.
    apply (every_socket_reachable JSON_parse
             (λ _ w, terminations w ≠ 0%nat → is_open w = false) ) with (k := k) (c := c)
             (events := events); try done.
    - intros frame k0 w0 H0. unfold send. destruct (is_open w0) eqn:Ho; [|done].
      simpl. intros Ht. specialize (H0 Ht). congruence.
    - intros k0 w0 _ _. apply terminate_not_open.
    - intros k0 w0 _ _. unfold is_open, closing. simpl.
      by destruct (bool_decide (_ = CLOSED)). }
  split; [done|]. intros frame. by apply send_not_open.
Qed.

(** ** Heartbeats against the sweep *)

Lemma preserves_for_of_in {A} P (xs : list A) (body : A → M unit) :
  (∀ x, x ∈ xs → preserves P (body x)) → preserves P (for_of xs body).
Proof.
  induction xs as [|x xs IH]; intros Hbody; simpl; [by intros st|].
  apply (preserves_bind P (body x) (λ _, for_of xs body)).
  - apply Hbody. by left.
  - intros _. apply IH. intros y Hy. apply Hbody. by right.
Qed.

(** The sweep leaves the socket of a connection whose entry is not stale, or
    that has no entry, as it was, also when it throws. *)
Lemma sweep_tick_spares now k st :
  wf st →
  (∀ cd, clients st !! k = Some cd → stale now cd = false) →
  sockets (exec (sweep_tick now) st) !! k = sockets st !! k.
Proof.
  intros Hwf Hfresh. unfold exec, sweep_tick, mbind, M_bind, bind, gets. cbn beta iota.
  cbn [fst snd].
  apply (preserves_for_of_in (λ s, sockets s !! k = sockets st !! k) (entries st));
    [|done].
  intros [k' cd'] Hin. apply elem_of_entries in Hin. cbn [fst snd].
  destruct (stale now cd') eqn:Hold; [|by apply preserves_pure].
  destruct (Hwf _ _ Hin) as [Hws _]. simpl in Hws.
  assert (k' ≠ k) as Hne.
  { intros ->. apply Hfresh in Hin. congruence. }
  apply preserves_bind; [|intros _; apply preserves_bind; [|intros _]].
  - apply preserves_pure. intros s. unfold template. by destruct (forallb _ _).
  - by apply preserves_modify.
  - apply preserves_modify. intros s Hs. simpl.
    by rewrite Hws, lookup_alter_ne.
Qed.

(** X17. A heartbeat keeps a connection: after a heartbeat of a registered
    connection received at [t], a sweep at any time up to 30 seconds after [t]
    does not touch the socket of that connection, and its entry stays, with
    [lastSeen = t]; so it is whether the sweep runs to completion or throws on
    another entry. *)
Theorem heartbeat_postpones_eviction (JSON_parse : string → option value)
    clientId clientIP text t now st data cd :
  wf st →
  JSON_parse text = Some data →
  get data "type" = Some (VString "heartbeat") →
  clients st !! clientId = Some cd →
  now - t ≤ 30000 →
  let st1 := exec (on_message JSON_parse clientId clientIP text t) st in
  let st2 := exec (sweep_tick now) st1 in
  socket_of st2 clientId = socket_of st clientId
  ∧ clients st2 !! clientId
    = Some {| ws := ws cd;
              metadata := {| ip := ip (metadata cd);
                             location_device := location_device (metadata cd);
                             lastSeen := t |} |}.
Proof.
  intros Hwf Hparse Htype Hcd Hsoon.
  destruct (on_message_heartbeat JSON_parse clientId clientIP text t st data _ cd
              Hparse Htype eq_refl Hcd) as [lines E1].
  cbv zeta. unfold exec at 2 4. rewrite E1. cbn [fst snd].
  match goal with |- context [exec (sweep_tick now) ?s] => set (st1 := s) end.
  assert (wf st1) as Hwf1.
  { intros k e. simpl. intros Hk.
    apply lookup_alter_Some in Hk as [(-> & e0 & He0 & ->)|[_ Hk]]; simpl;
      by eapply Hwf. }
  split.
  - unfold socket_of. rewrite (sweep_tick_spares now clientId st1 Hwf1); [done|].
    intros e. simpl. rewrite lookup_alter_eq, Hcd. simpl. intros [= <-].
    unfold stale. simpl. apply bool_decide_eq_false_2. lia.
  - unfold exec. destruct (sweep_tick_keeps_registry now st1 st1) as [-> _]; [done|].
    simpl. by rewrite lookup_alter_eq, Hcd.
Qed.

(** ** A device that only answers probes *)

Section Quiet.

Variable JSON_parse : string → option value.
Variable clientId : string.
Variable cd0 : ClientData.

Lemma quiet_same (f : State → State) :
  (∀ st, clients (f st) = clients st ∧ sockets (f st) = sockets st) →
  preserves (entry_or_gone clientId cd0) (modify f).
Proof.
  intros Hf st [Hs Hc]. destruct (Hf st) as [Ec Es]. simpl.
  split; by rewrite ?Ec, ?Es.
Qed.

Lemma quiet_on_socket f ref : preserves (entry_or_gone clientId cd0) (on_socket f ref).
Proof.
  intros st [Hs Hc]. unfold on_socket. simpl. split; [|done].
  simpl. by apply lookup_alter_is_Some.
Qed.

Lemma quiet_on_metadata f id :
  id ≠ clientId → preserves (entry_or_gone clientId cd0) (on_metadata f id).
Proof.
  intros Hne st [Hs Hc]. unfold on_metadata. simpl. split; [done|].
  simpl. by rewrite lookup_alter_ne.
Qed.

Lemma quiet_set_entry id v :
  id ≠ clientId → preserves (entry_or_gone clientId cd0) (modify (Map_set id v)).
Proof.
  intros Hne st [Hs Hc]. simpl. split; [done|].
  simpl. by rewrite lookup_insert_ne.
Qed.

Lemma quiet_delete_entry id :
  preserves (entry_or_gone clientId cd0) (modify (Map_delete id)).
Proof.
  intros st [Hs Hc]. simpl. split; [done|]. simpl.
  destruct (decide (id = clientId)) as [->|Hne].
  - left. apply lookup_delete_eq.
  - by rewrite lookup_delete_ne.
Qed.

Ltac quiet_step :=
  lazymatch goal with
  | |- preserves _ (_ ≫= _) => apply preserves_bind; [|intros ?]
  | |- preserves _ (try_catch _ _) => apply preserves_try_catch
  | |- preserves _ (for_of _ _) => apply preserves_for_of; intros ?
  | |- preserves _ (on_socket _ _) => apply quiet_on_socket
  | |- preserves _ (on_metadata _ _) => by apply quiet_on_metadata
  | |- preserves _ (modify (Map_set _ _)) => by apply quiet_set_entry
  | |- preserves _ (modify (Map_delete _)) => apply quiet_delete_entry
  | |- preserves _ (log _) => by apply quiet_same
  | |- preserves _ (sendMessage _) => by apply quiet_same
  | |- preserves _ (gets _) => by apply preserves_pure
  | |- preserves _ skip => by apply preserves_pure
  | |- preserves _ (eval ?o) => apply preserves_pure; by destruct o
  | |- preserves _ (template ?vs) =>
      apply preserves_pure; unfold template; by destruct (forallb printable vs)
  | |- preserves _ (match ?x with _ => _ end) => destruct x
  end.

(** No event but a connect or a heartbeat message of [clientId] changes the
    entry of [clientId], except that its [close] event removes it. *)
Lemma quiet_dispatch e :
  quiet JSON_parse clientId e = true →
  preserves (entry_or_gone clientId cd0) (dispatch JSON_parse e).
Proof.
  destruct e as [id addr now|id text now|id|id msg|id| |now| |targets|event];
    simpl; intros Hq.
  - intros st [Hs Hc]. unfold mbind, M_bind, bind, gets. cbn beta iota.
    destruct (sockets st !! id) as [c|] eqn:Hid; [done|].
    assert (id ≠ clientId) as Hne.
    { intros ->. rewrite Hid in Hs. by destruct Hs. }
    destruct (on_connection_spec id addr now st) as (st' & -> & Ec & Es & _).
    split; simpl.
    + rewrite Es. by rewrite lookup_insert_ne.
    + rewrite Ec. by rewrite lookup_insert_ne.
  - destruct (String.eqb_spec id clientId) as [->|Hne]; simpl in Hq.
    + apply negb_true_iff in Hq.
      intros st HP. unfold of_connection, mbind, M_bind, bind, gets. cbn beta iota.
      destruct (sockets st !! clientId) as [c|]; [|done].
      destruct (on_message_unrecognised JSON_parse clientId (clientIP c) text now st Hq)
        as [lines ->].
      exact HP.
    + unfold of_connection, on_message, message_body. repeat quiet_step.
  - unfold of_connection, emit_close, on_close. repeat quiet_step.
  - unfold of_connection, emit_error, on_error. repeat quiet_step.
  - unfold of_connection, heartbeat. repeat quiet_step.
  - unfold probe_tick, broadcast. repeat quiet_step.
  - unfold sweep_tick. repeat quiet_step.
  - by apply quiet_same.
  - by apply quiet_same.
  - unfold telegram_handler, deliver, broadcast. repeat quiet_step.
Qed.

Lemma quiet_run events :
  forallb (quiet JSON_parse clientId) events = true →
  preserves (entry_or_gone clientId cd0) (run JSON_parse events).
Proof.
  intros Hq. apply preserves_for_of_in. intros e He.
  apply quiet_dispatch. rewrite forallb_forall in Hq.
  apply Hq. by apply list_elem_of_In.
Qed.

Lemma registered_same (f : State → State) :
  (∀ st, clients (f st) = clients st) →
  preserves (λ st, is_Some (clients st !! clientId)) (modify f).
Proof. intros Hf st Hc. simpl. by rewrite Hf. Qed.

Lemma registered_on_metadata f id :
  preserves (λ st, is_Some (clients st !! clientId)) (on_metadata f id).
Proof. intros st Hc. unfold on_metadata. simpl. by apply lookup_alter_is_Some. Qed.

Lemma registered_set_entry id v :
  preserves (λ st, is_Some (clients st !! clientId)) (modify (Map_set id v)).
Proof. intros st Hc. simpl. apply lookup_insert_is_Some'. by right. Qed.

Lemma registered_delete_entry id :
  id ≠ clientId →
  preserves (λ st, is_Some (clients st !! clientId)) (modify (Map_delete id)).
Proof. intros Hne st Hc. simpl. by rewrite lookup_delete_ne. Qed.

Ltac registered_step :=
  lazymatch goal with
  | |- preserves _ (_ ≫= _) => apply preserves_bind; [|intros ?]
  | |- preserves _ (try_catch _ _) => apply preserves_try_catch
  | |- preserves _ (for_of _ _) => apply preserves_for_of; intros ?
  | |- preserves _ (on_socket _ _) => by apply registered_same
  | |- preserves _ (on_metadata _ _) => apply registered_on_metadata
  | |- preserves _ (modify (Map_set _ _)) => apply registered_set_entry
  | |- preserves _ (modify (Map_delete _)) => by apply registered_delete_entry
  | |- preserves _ (log _) => by apply registered_same
  | |- preserves _ (sendMessage _) => by apply registered_same
  | |- preserves _ (gets _) => by apply preserves_pure
  | |- preserves _ skip => by apply preserves_pure
  | |- preserves _ (eval ?o) => apply preserves_pure; by destruct o
  | |- preserves _ (template ?vs) =>
      apply preserves_pure; unfold template; by destruct (forallb printable vs)
  | |- preserves _ (match ?x with _ => _ end) => destruct x
  | |- preserves _ (modify _) => by apply registered_same
  end.

(** Only its [close] event removes the entry of [clientId]. *)
Lemma registered_dispatch e :
  closes clientId e = false →
  preserves (λ st, is_Some (clients st !! clientId)) (dispatch JSON_parse e).
Proof.
  destruct e as [id addr now|id text now|id|id msg|id| |now| |targets|event];
    simpl; intros Hq;
    try (apply String.eqb_neq in Hq);
    unfold of_connection, on_connection, on_message, message_body, emit_close, on_close,
      emit_error, on_error, heartbeat, probe_tick, sweep_tick, logged_in, add_handler,
      telegram_handler, broadcast, deliver;
    repeat registered_step.
Qed.

Lemma registered_run events :
  forallb (λ e, negb (closes clientId e)) events = true →
  preserves (λ st, is_Some (clients st !! clientId)) (run JSON_parse events).
Proof.
  intros Hq. apply preserves_for_of_in. intros e He.
  apply registered_dispatch. rewrite forallb_forall in Hq.
  apply negb_true_iff, Hq. by apply list_elem_of_In.
Qed.

End Quiet.

(** X18. A pong sets [isAlive] on the socket of its connection and changes
    nothing else, the [lastSeen] of the entry in particular.  So take a device
    accepted at [t0] that sends no connect and no heartbeat message, whatever
    else happens meanwhile (probes and its pongs, messages of another kind,
    other devices, operator messages, earlier sweeps, its own close).  When a
    sweep more than 30 seconds after [t0] runs to completion, the entry of the
    device is either gone already, which takes its [close] event, or still has
    [lastSeen = t0], and then the sweep terminates its socket; the [close]
    event that follows completes, and after it the device has no entry. *)
Theorem quiet_device_is_evicted (JSON_parse : string → option value)
    clientId remoteAddress t0 events now st :
  wf st →
  sockets st !! clientId = None →
  forallb (quiet JSON_parse clientId) events = true →
  now - t0 > 30000 →
  completes (sweep_tick now)
    (exec (run JSON_parse events)
       (exec (dispatch JSON_parse (Connection clientId remoteAddress t0)) st)) →
  let st0 := exec (dispatch JSON_parse (Connection clientId remoteAddress t0)) st in
  let st1 := exec (run JSON_parse events) st0 in
  let st2 := exec (sweep_tick now) st1 in
  let st3 := exec (emit_close clientId) st2 in
  (∀ s w, socket_of s clientId = Some w →
     clients (exec (dispatch JSON_parse (Pong clientId)) s) = clients s
     ∧ socket_of (exec (dispatch JSON_parse (Pong clientId)) s) clientId
       = Some {| readyState := readyState w; isAlive := true; sent := sent w;
                 terminations := terminations w |})
  ∧ (clients st1 !! clientId = None → existsb (closes clientId) events = true)
  ∧ (clients st1 !! clientId = None
     ∨ ((λ e, lastSeen (metadata e)) <$> clients st1 !! clientId = Some t0
        ∧ clients st2 !! clientId = clients st1 !! clientId
        ∧ ∃ w, socket_of st1 clientId = Some w
             ∧ socket_of st2 clientId = Some (terminate w)
             ∧ is_open (terminate w) = false
             ∧ terminations (terminate w) = S (terminations w)))
  ∧ completes (emit_close clientId) st2
  ∧ clients st3 !! clientId = None.
Proof.
  intros Hwf Hfresh Hquiet Hlate. cbv zeta.
  set (cd0 := {| ws := clientId;
                 metadata := {| ip := from_option VString VUndefined remoteAddress;
                                location_device := VString "🔄 Waiting...";
                                lastSeen := t0 |} |}).
  destruct (on_connection_spec clientId remoteAddress t0 st) as (st0 & E0 & C0 & S0 & _).
  assert (dispatch JSON_parse (Connection clientId remoteAddress t0) st = (Normal tt, st0))
    as D0.
  { simpl. run_M. by rewrite Hfresh. }
  assert (exec (dispatch JSON_parse (Connection clientId remoteAddress t0)) st = st0) as ->.
  { unfold exec. by rewrite D0. }
  assert (registry_ok None st0) as Hok0.
  { split; [|done]. intros k cd. rewrite C0, S0. intros Hk.
    apply lookup_insert_Some in Hk as [[<- <-]|[Hne Hk]]; simpl.
    - by rewrite lookup_insert_eq.
    - rewrite lookup_insert_ne by done. by apply Hwf in Hk. }
  assert (entry_or_gone clientId cd0 st0) as Hq0.
  { split; [rewrite S0|right; rewrite C0]; by rewrite lookup_insert_eq. }
  set (st1 := exec (run JSON_parse events) st0).
  assert (wf st1) as Hwf1.
  { by apply (preserves_for_of _ events _ (preserves_dispatch JSON_parse) st0 Hok0). }
  destruct (quiet_run JSON_parse clientId cd0 events Hquiet st0 Hq0) as [Hs1 Hc1].
  fold (exec (run JSON_parse events) st0) in Hs1, Hc1. fold st1 in Hs1, Hc1.
  intros Hdone. split.
  { clear. intros s w Hw. unfold socket_of in Hw. simpl.
    unfold of_connection, heartbeat, exec, socket_of. run_M.
    destruct (sockets s !! clientId) as [c|] eqn:Hc; [|done]. simpl in *.
    injection Hw as <-. by rewrite lookup_alter_eq, Hc. }
  split.
  { intros Hgone. destruct (existsb (closes clientId) events) eqn:Hex; [done|].
    assert (is_Some (clients st1 !! clientId)) as [? Hreg]; [|congruence].
    apply (registered_run JSON_parse clientId events).
    - apply forallb_forall. intros e He. apply negb_true_iff.
      destruct (closes clientId e) eqn:Hcl; [|done].
      assert (existsb (closes clientId) events = true); [|congruence].
      apply existsb_exists. eauto.
    - rewrite C0, lookup_insert_eq. eauto. }
  destruct (sweep_tick_completed now st1 Hwf1 Hdone) as (st2 & E2 & (C2 & _) & S2).
  destruct (emit_close_spec clientId st2) as (st3 & E3 & C3 & _).
  { rewrite C2. intros cd Hcd. destruct Hc1 as [Hc1|Hc1]; rewrite Hc1 in Hcd; [done|].
    injection Hcd as <-. simpl. by destruct remoteAddress. }
  unfold exec, completes. rewrite E2. cbn [fst snd]. rewrite E3. cbn [fst snd].
  rewrite C3, C2. split_and!; try done; [|apply lookup_delete_eq].
  destruct Hc1 as [Hc1|Hc1]; [by left|right].
  rewrite Hc1. split_and!; try done.
  destruct Hs1 as [c Hc]. exists (socket c). unfold socket_of.
  rewrite S2, Hc1, Hc. unfold stale. simpl.
  rewrite bool_decide_eq_true_2 by done. simpl.
  split_and!;
    first [done | apply terminate_not_open | unfold terminate; simpl; lia].
Qed.

(** ** The order of the registry *)

Lemma rank_cons x order key :
  rank (x :: order) key = if decide (x = key) then 0%nat else S (rank order key).
Proof.
  unfold rank. simpl. destruct (decide (x = key)); [done|].
  by destruct (list_find _ order) as [[i y]|].
Qed.

Lemma rank_fmap order : NoDup order → rank order <$> order = seq 0 (length order).
Proof.
  induction 1 as [|x order Hx Hnd IH]; [done|]. simpl.
  rewrite rank_cons, decide_True by done. f_equal.
  rewrite <- fmap_S_seq, <- IH, <- list_fmap_compose.
  apply list_fmap_ext. intros i y Hy. simpl.
  rewrite rank_cons, decide_False; [done|].
  intros ->. apply Hx. by eapply list_elem_of_lookup_2.
Qed.

Lemma rank_lookup order key : key ∈ order → order !! rank order key = Some key.
Proof.
  induction 1 as [x order|x y order Hin IH]; rewrite rank_cons.
  - by rewrite decide_True.
  - destruct (decide (y = x)) as [->|]; [done|]. done.
Qed.

Lemma Sorted_seq a n : Sorted le (seq a n).
Proof.
  revert a. induction n as [|n IH]; intros a; simpl; [constructor|].
  constructor; [apply IH|]. destruct n; simpl; constructor. lia.
Qed.

Lemma rank_fmap_inj order (a b : list string) :
  (∀ x, x ∈ a → x ∈ order) → (∀ x, x ∈ b → x ∈ order) →
  rank order <$> a = rank order <$> b → a = b.
Proof.
  revert b. induction a as [|x a IH]; intros [|y b] Ha Hb E; try done.
  simpl in E. injection E as Exy E.
  assert (x = y) as ->.
  { assert (order !! rank order x = Some x) as Hx by (apply rank_lookup, Ha; left).
    assert (order !! rank order y = Some y) as Hy by (apply rank_lookup, Hb; left).
    rewrite Exy in Hx. congruence. }
  f_equal. apply IH; [intros; apply Ha|intros; apply Hb|done]; by right.
Qed.

(** With [inserted] the keys of the registry, each once, the entries come in
    that order. *)
Lemma entries_inserted st : ordered st → (entries st).*1 = inserted st.
Proof.
  intros [Hnd Hin].
  assert ((entries st).*1 ≡ₚ inserted st) as Hperm.
  { apply NoDup_Permutation; [apply NoDup_fst_entries|done|].
    intros k. rewrite Hin, list_elem_of_fmap. split.
    - intros ([k' cd] & -> & Hk). apply elem_of_entries in Hk. eauto.
    - intros [cd Hk]. exists (k, cd). split; [done|]. by apply elem_of_entries. }
  apply (rank_fmap_inj (inserted st)).
  - intros x. by rewrite Hperm.
  - done.
  - apply (Sorted_unique le).
    + rewrite <- list_fmap_compose.
      apply (Sorted_fmap _ (before (inserted st)) le); [done|].
      apply (Sorted_merge_sort _).
    + rewrite rank_fmap by done. apply Sorted_seq.
    + by rewrite Hperm.
Qed.

Lemma ordered_same (f : State → State) :
  (∀ st, clients (f st) = clients st ∧ inserted (f st) = inserted st) →
  preserves ordered (modify f).
Proof.
  intros Hf st [Hnd Hin]. destruct (Hf st) as [Ec Ei]. simpl.
  split; [by rewrite Ei|]. intros k. by rewrite Ei, Ec.
Qed.

Lemma ordered_on_socket f ref : preserves ordered (on_socket f ref).
Proof. by apply ordered_same. Qed.

Lemma ordered_on_metadata f clientId : preserves ordered (on_metadata f clientId).
Proof.
  intros st [Hnd Hin]. unfold on_metadata. simpl. split; [done|].
  intros k. simpl. by rewrite lookup_alter_is_Some.
Qed.

Lemma ordered_set_entry key value : preserves ordered (modify (Map_set key value)).
Proof.
  intros st [Hnd Hin]. unfold ordered, Map_set. simpl. case_bool_decide as Hk; split.
  - done.
  - intros k. rewrite lookup_insert_is_Some', Hin.
    split; [auto|]. by intros [<-|?].
  - apply NoDup_app. split; [done|]. split; [|apply NoDup_singleton].
    intros x Hx ->%list_elem_of_singleton. by apply Hk, Hin.
  - intros k. rewrite elem_of_app, list_elem_of_singleton, lookup_insert_is_Some', Hin.
    split; intros [?|?]; auto.
Qed.

Lemma ordered_delete_entry key : preserves ordered (modify (Map_delete key)).
Proof.
  intros st [Hnd Hin]. unfold ordered, Map_delete. simpl. split; [by apply NoDup_filter|].
  intros k. simpl. rewrite list_elem_of_filter, Hin, lookup_delete_is_Some.
  split; intros [? ?]; split; done.
Qed.

Ltac ordered_step :=
  lazymatch goal with
  | |- preserves _ (_ ≫= _) => apply preserves_bind; [|intros ?]
  | |- preserves _ (try_catch _ _) => apply preserves_try_catch
  | |- preserves _ (for_of _ _) => apply preserves_for_of; intros ?
  | |- preserves _ (on_socket _ _) => apply ordered_on_socket
  | |- preserves _ (on_metadata _ _) => apply ordered_on_metadata
  | |- preserves _ (modify (Map_set _ _)) => apply ordered_set_entry
  | |- preserves _ (modify (Map_delete _)) => apply ordered_delete_entry
  | |- preserves _ (log _) => by apply ordered_same
  | |- preserves _ (sendMessage _) => by apply ordered_same
  | |- preserves _ (gets _) => by apply preserves_pure
  | |- preserves _ skip => by apply preserves_pure
  | |- preserves _ (eval ?o) => apply preserves_pure; by destruct o
  | |- preserves _ (template ?vs) =>
      apply preserves_pure; unfold template; by destruct (forallb printable vs)
  | |- preserves _ (match ?x with _ => _ end) => destruct x
  | |- preserves _ (modify _) => by apply ordered_same
  end.

Lemma ordered_dispatch JSON_parse e : preserves ordered (dispatch JSON_parse e).
Proof.
  destruct e; simpl;
    unfold of_connection, on_connection, on_message, message_body, emit_close, on_close,
      emit_error, on_error, heartbeat, probe_tick, sweep_tick, logged_in, add_handler,
      telegram_handler, broadcast, deliver;
    repeat ordered_step.
Qed.

Lemma ordered_reachable JSON_parse events : ordered (exec (run JSON_parse events) initial).
Proof.
  apply (preserves_for_of ordered events (dispatch JSON_parse)).
  - intros e. apply ordered_dispatch.
  - split; [constructor|]. intros k. simpl. rewrite lookup_empty.
    split; [by intros ?%elem_of_nil|by intros [? ?]].
Qed.

(** In every state the server reaches, the loops over the registry visit
    the entries in the order in which their keys were inserted. *)
Lemma entries_in_insertion_order JSON_parse events :
  (entries (exec (run JSON_parse events) initial)).*1
  = inserted (exec (run JSON_parse events) initial).
Proof. apply entries_inserted, ordered_reachable. Qed.

(** * The further properties on sample runs *)

Lemma a_poisoned_wf : wf Sample.a_poisoned.
Proof. apply wf_reachable. Qed.

(** X3 on a sample: a third device is accepted at 9 s. *)
Lemma connection_witness :
  clients (exec (on_connection "C" (Some "10.0.0.3") 9000) Sample.two_devices) !! "C"
    = Some (Sample.entry "C" "10.0.0.3" 9000)
  ∧ size (clients (exec (on_connection "C" (Some "10.0.0.3") 9000) Sample.two_devices))
    = 3%nat.
Proof.
  destruct (connection_registered "C" (Some "10.0.0.3") 9000 Sample.two_devices)
    as (_ & Hentry & _ & _ & Hsize & _).
  - apply two_devices_wf.
  - reflexivity.
  - split; [exact Hentry|exact Hsize].
Defined.

(** X4 on a sample. *)
Lemma accept_then_close_witness :
  clients (exec (emit_close "C")
             (exec (on_connection "C" None 9000) Sample.two_devices))
    = clients Sample.two_devices.
Proof.
  destruct (accept_then_close_restores "C" None 9000 Sample.two_devices)
    as (_ & Hsame & _).
  - apply two_devices_wf.
  - reflexivity.
  - exact Hsame.
Defined.

(** X6 on a sample: A registers as [Lab] and names no address. *)
Lemma connect_metadata_witness :
  clients (exec (on_message Sample.parse "A" (VString "10.0.0.1") Sample.connect_text 5000)
                Sample.two_devices) !! "A"
    = Some {| ws := "A";
              metadata := {| ip := VString "10.0.0.1"; location_device := VString "Lab";
                             lastSeen := 5000 |} |}.
Proof.
  destruct (connect_replaces_metadata Sample.parse "A" (VString "10.0.0.1")
              Sample.connect_text 5000 Sample.two_devices
              (VObject [("type", VString "connect"); ("location_device", VString "Lab")])
              (Sample.entry "A" "10.0.0.1" 0))
    as [Hentry _]; [reflexivity..|].
  exact Hentry.
Defined.

(** X7 on a sample: the operator is told of the registration of A, with the
    two entries of the registry counted. *)
Lemma connect_notification_witness :
  operator (exec (on_message Sample.parse "A" (VString "10.0.0.1") Sample.connect_text 5000)
                 Sample.two_devices)
    = [ClientRegistered (VString "Lab") (VString "10.0.0.1") 2].
Proof.
  destruct (connect_notifies_operator Sample.parse "A" (VString "10.0.0.1")
              Sample.connect_text 5000 Sample.two_devices
              (VObject [("type", VString "connect"); ("location_device", VString "Lab")])
              (Sample.entry "A" "10.0.0.1" 0))
    as [Hop _]; [reflexivity..|].
  exact Hop.
Defined.

(** X8 on a sample: after the heartbeat of A at 20 s, the sweep at 50 s, just
    30 s later, spares A. *)
Lemma sweep_spares_witness :
  socket_of (exec (sweep_tick 50000) Sample.b_closing) "A"
    = socket_of Sample.b_closing "A".
Proof.
  destruct (sweep_spares_the_fresh 50000 Sample.b_closing)
    as (_ & _ & _ & _ & Hfresh & _).
  - apply b_closing_wf.
  - apply b_closing_printable.
  - apply (Hfresh "A" (Sample.entry "A" "10.0.0.1" 20000)); [reflexivity|].
    vm_compute. discriminate.
Defined.

(** X11 on a sample: a probe while B is closing. *)
Lemma probe_witness :
  sent <$> socket_of (exec probe_tick Sample.b_closing) "A"
    = Some [Connected "A"; CommandPing]
  ∧ sent <$> socket_of (exec probe_tick Sample.b_closing) "B" = Some [Connected "B"].
Proof.
  destruct (probe_pings_open_connections Sample.b_closing) as (_ & _ & _ & H).
  - apply b_closing_wf.
  - cbv zeta in H. rewrite !H. split; reflexivity.
Defined.

(** X2 on a sample: A has registered with the address [{"toString":true}]. *)
Lemma blocked_close_witness :
  (emit_close "A" Sample.a_poisoned).1 = Throw
  ∧ clients (exec (emit_close "A") Sample.a_poisoned) = clients Sample.a_poisoned
  ∧ socket_of (exec (emit_close "A") Sample.a_poisoned) "A"
    = closed <$> socket_of Sample.a_poisoned "A".
Proof.
  apply (unprintable_address_blocks_close "A"
           {| ws := "A";
              metadata := {| ip := VObject [("toString", VBool true)];
                             location_device := VString "Unknown";
                             lastSeen := 1000 |} |}
           Sample.a_poisoned); reflexivity.
Defined.

(** X9 on the same sample, swept at 40 s. *)
Lemma stopped_sweep_witness :
  (sweep_tick 40000 Sample.a_poisoned).1 = Throw
  ∧ clients (exec (sweep_tick 40000) Sample.a_poisoned) = clients Sample.a_poisoned
  ∧ operator (exec (sweep_tick 40000) Sample.a_poisoned) = operator Sample.a_poisoned.
Proof.
  apply (unprintable_address_stops_sweep 40000 "A"
           {| ws := "A";
              metadata := {| ip := VObject [("toString", VBool true)];
                             location_device := VString "Unknown";
                             lastSeen := 1000 |} |}
           Sample.a_poisoned); reflexivity.
Defined.

(** X10 on a sample: a command for a connection that does not exist. *)
Lemma operator_message_witness :
  clients (exec (telegram_handler Sample.allowed
                   (Some (Sample.from_operator "esp32:Z:reboot"))) Sample.two_devices)
    = clients Sample.two_devices
  ∧ operator (exec (telegram_handler Sample.allowed
                      (Some (Sample.from_operator "esp32:Z:reboot"))) Sample.two_devices)
    = operator Sample.two_devices.
Proof.
  destruct (operator_message_only_sends Sample.allowed
              (Some (Sample.from_operator "esp32:Z:reboot")) Sample.two_devices)
    as (_ & Hc & Ho & _).
  - apply two_devices_wf.
  - split; [exact Hc|exact Ho].
Defined.

(** X12 on a sample. *)
Lemma status_witness :
  NoDup (row_clientId <$> esp32_clients Sample.b_closing)
  ∧ length (esp32_clients Sample.b_closing) = size (clients Sample.b_closing).
Proof.
  destruct (status_lists_the_registry Sample.b_closing) as (_ & Hnd & Hlen).
  - apply b_closing_wf.
  - split; [exact Hnd|exact Hlen].
Defined.

(** X13 on a sample: the sweep at 30.001 s, then the status route. *)
Lemma status_terminated_witness :
  {| row_clientId := "A"; row_connected := false; row_ip := VString "10.0.0.1";
     row_location_device := VString "🔄 Waiting..."; row_lastSeen := 0 |}
    ∈ esp32_clients (exec (sweep_tick 30001) Sample.two_devices).
Proof.
  apply (status_shows_terminated 30001 "A" (Sample.entry "A" "10.0.0.1" 0)
           Sample.two_devices).
  - apply two_devices_wf.
  - reflexivity.
  - reflexivity.
  - reflexivity.
Defined.

(** X16 on a sample: B, terminated by the sweep. *)
Lemma shut_socket_witness :
  is_open {| readyState := CLOSING; isAlive := true; sent := [Connected "B"];
             terminations := 1 |} = false
  ∧ ∀ frame,
      send frame {| readyState := CLOSING; isAlive := true; sent := [Connected "B"];
                    terminations := 1 |}
      = {| readyState := CLOSING; isAlive := true; sent := [Connected "B"];
           terminations := 1 |}.
Proof.
  apply (terminated_socket_stays_shut Sample.parse
           (Sample.start ++ [DeviceMessage "A" Sample.heartbeat_text 20000; SweepTimer 40000])
           "B").
  - reflexivity.
  - discriminate.
Defined.

(** X17 on a sample: A has registered with the poisoned address, B sends a
    heartbeat at 35 s, and the sweep at 40 s throws on the entry of A; the
    socket of B is as before and its entry stays. *)
Lemma heartbeat_sweep_witness :
  let st1 := exec (on_message Sample.parse "B" (VString "10.0.0.2")
                     Sample.heartbeat_text 35000) Sample.a_poisoned in
  (sweep_tick 40000 st1).1 = Throw
  ∧ socket_of (exec (sweep_tick 40000) st1) "B" = socket_of Sample.a_poisoned "B"
  ∧ clients (exec (sweep_tick 40000) st1) !! "B" = Some (Sample.entry "B" "10.0.0.2" 35000).
Proof.
  destruct (heartbeat_postpones_eviction Sample.parse "B" (VString "10.0.0.2")
              Sample.heartbeat_text 35000 40000 Sample.a_poisoned
              (VObject [("type", VString "heartbeat")]) (Sample.entry "B" "10.0.0.2" 0))
    as (Hsocket & Hentry).
  - apply a_poisoned_wf.
  - reflexivity.
  - reflexivity.
  - reflexivity.
  - vm_compute. discriminate.
  - split; [reflexivity|]. split; [exact Hsocket|exact Hentry].
Defined.

(** X18 on a sample: C, accepted at 0, answers a probe with a pong and later
    sends a message of its own kind, while A and B send a heartbeat and a
    connect message, a sweep passes at 20 s and the operator writes; the sweep
    at 30.001 s terminates C, and its [close] event removes the entry. *)
Lemma quiet_device_witness :
  let events := [ProbeTimer; Pong "C"; DeviceMessage "A" Sample.heartbeat_text 10000;
                 DeviceMessage "B" Sample.connect_text 15000; SweepTimer 20000;
                 DeviceMessage "C" Sample.unknown_text 30000;
                 NewMessage (Some (Sample.from_operator "hello"))] in
  let st0 := exec (dispatch Sample.parse (Connection "C" (Some "10.0.0.3") 0))
                  Sample.two_devices in
  let st1 := exec (run Sample.parse events) st0 in
  let st2 := exec (sweep_tick 30001) st1 in
  readyState <$> socket_of st2 "C" = Some CLOSING
  ∧ completes (emit_close "C") st2
  ∧ clients (exec (emit_close "C") st2) !! "C" = None.
Proof.
  destruct (quiet_device_is_evicted Sample.parse "C" (Some "10.0.0.3") 0
              [ProbeTimer; Pong "C"; DeviceMessage "A" Sample.heartbeat_text 10000;
               DeviceMessage "B" Sample.connect_text 15000; SweepTimer 20000;
               DeviceMessage "C" Sample.unknown_text 30000;
               NewMessage (Some (Sample.from_operator "hello"))]
              30001 Sample.two_devices)
    as (_ & _ & _ & Hclose & Hgone).
  - apply two_devices_wf.
  - reflexivity.
  - reflexivity.
  - reflexivity.
  - reflexivity.
  - split; [reflexivity|]. split; [exact Hclose|exact Hgone].
Defined.

(** X1 on a sample. *)
Lemma registry_witness :
  ws (Sample.entry "B" "10.0.0.2" 0) = "B"
  ∧ is_Some (sockets (exec (run Sample.parse Sample.start) initial) !! "B").
Proof.
  apply (registry_names_own_sockets Sample.parse Sample.start "B"
           (Sample.entry "B" "10.0.0.2" 0)).
  reflexivity.
Defined.

(** X15 on a sample: A after a probe. *)
Lemma first_frame_witness :
  ∃ rest,
    sent (socket {| socket := {| readyState := OPEN; isAlive := true;
                                 sent := [Connected "A"; CommandPing];
                                 terminations := 0 |};
                    clientIP := VString "10.0.0.1" |})
    = Connected "A" :: rest.
Proof.
  apply (first_frame_tells_the_id Sample.parse (Sample.start ++ [ProbeTimer]) "A").
  reflexivity.
Defined.
